(** * The diffusion kernel of [DiffusionKernelTutorial.ipynb]

    A shallow embedding of the class [DiffusionKernel] defined in the
    notebook: its constructor and its [forward] method, together with the
    fragment of the tensor library that [forward] is written in (integer
    indexing, [unsqueeze], [transpose], broadcasting, elementwise
    operations).

    Conventions of the embedding.
    - A tensor is a shape together with an indexing function; an operation
      that the tensor library rejects returns [Raise] with the exception
      class Python would raise.
    - Floating-point values are idealised as real numbers ([R]): the
      statements about [forward] are about the formula the code computes.
      Bounds and monotonicity are stated without strictness, because
      single precision attains them (the decay [base] reaches 1 and 0);
      [base32] describes the float32 evaluation of that expression.
    - The entries of the point batches are category indices, kept as
      integers ([Z]); the notebook stores them in float tensors, on which
      [!=] is the same comparison. *)

From Stdlib Require Import String.
From Stdlib Require Import Reals List ZArith Lia Lra Bool.
Import ListNotations.

(** ** Exceptions and the error monad *)

Inductive exn : Type :=
| IndexError                 (* index out of range, too many indices, bad dim *)
| RuntimeError               (* shapes that cannot be broadcast together *)
| NameError (name : string). (* use of a name that is not bound *)

Inductive result (A : Type) : Type :=
| Ok (a : A)
| Raise (e : exn).
Arguments Ok {A} a.
Arguments Raise {A} e.

Definition bind {A B : Type} (m : result A) (k : A -> result B) : result B :=
  match m with
  | Ok a => k a
  | Raise e => Raise e
  end.

Notation "x <- m ;; k" := (bind m (fun x => k))
  (at level 61, m at next level, right associativity).

(** [l[i]] on a Python list, for an index [i >= 0]. *)
Definition list_index {A : Type} (l : list A) (i : nat) : result A :=
  match nth_error l i with
  | Some a => Ok a
  | None => Raise IndexError
  end.

(** [for i in range(n): acc = body(i, acc)], stopping at the first
    exception. *)
Fixpoint for_each {A : Type} (body : nat -> A -> result A)
    (l : list nat) (acc : A) : result A :=
  match l with
  | [] => Ok acc
  | i :: l' => acc' <- body i acc ;; for_each body l' acc'
  end.

Definition for_range {A : Type} (n : nat) (body : nat -> A -> result A)
    (acc : A) : result A :=
  for_each body (seq 0 n) acc.

(** ** Tensors *)

Module Torch.

Record tensor (A : Type) : Type := mkT {
  shape : list nat;
  data : list nat -> A
}.
Arguments mkT {A} shape data.
Arguments shape {A} t.
Arguments data {A} t idx.

Definition ndim {A : Type} (t : tensor A) : nat := length (shape t).

(** A multi-index is in range for a shape. *)
Fixpoint in_range (s idx : list nat) : Prop :=
  match s, idx with
  | [], [] => True
  | n :: s', i :: idx' => (i < n)%nat /\ in_range s' idx'
  | _, _ => False
  end.

(** A dimension argument [dim], possibly negative, among [n] positions. *)
Definition wrap_dim (dim : Z) (n : nat) : result nat :=
  let p := (if dim <? 0 then dim + Z.of_nat n else dim)%Z in
  if ((0 <=? p) && (p <? Z.of_nat n))%Z then Ok (Z.to_nat p)
  else Raise IndexError.

(** [t.shape[dim]] *)
Definition size {A : Type} (t : tensor A) (dim : Z) : result nat :=
  p <- wrap_dim dim (ndim t) ;;
  Ok (nth p (shape t) 0%nat).

(** Index lists with one position added or removed. *)
Definition insert_at {A : Type} (p : nat) (a : A) (l : list A) : list A :=
  firstn p l ++ a :: skipn p l.

Definition remove_at {A : Type} (p : nat) (l : list A) : list A :=
  firstn p l ++ skipn (S p) l.

(** [t.select(dim, i)]: [t[..., i]] is [select (-1) i], [t[0, ...]] is
    [select 0 0] and [t[:, 0, ...]] is [select 1 0].  The dimension
    disappears from the shape and is read at [i]. *)
Definition select {A : Type} (dim : Z) (i : nat) (t : tensor A)
    : result (tensor A) :=
  p <- wrap_dim dim (ndim t) ;;
  if (i <? nth p (shape t) 0)%nat then
    Ok (mkT (remove_at p (shape t))
            (fun idx => data t (insert_at p i idx)))
  else Raise IndexError.

(** [t.unsqueeze(dim)]; [t[..., None]] is [unsqueeze (-1)].  A dimension
    of size 1 appears in the shape; its index is ignored. *)
Definition unsqueeze {A : Type} (dim : Z) (t : tensor A)
    : result (tensor A) :=
  p <- wrap_dim dim (S (ndim t)) ;;
  Ok (mkT (insert_at p 1%nat (shape t))
          (fun idx => data t (remove_at p idx))).

Definition swap (p q : nat) (l : list nat) : list nat :=
  map (fun k => nth (if (k =? p)%nat then q
                     else if (k =? q)%nat then p else k) l 0%nat)
      (seq 0 (length l)).

(** [t.transpose(dim0, dim1)] *)
Definition transpose {A : Type} (dim0 dim1 : Z) (t : tensor A)
    : result (tensor A) :=
  p <- wrap_dim dim0 (ndim t) ;;
  q <- wrap_dim dim1 (ndim t) ;;
  Ok (mkT (swap p q (shape t)) (fun idx => data t (swap p q idx))).

(** An elementwise operation with one tensor argument. *)
Definition tmap {A B : Type} (f : A -> B) (t : tensor A) : tensor B :=
  mkT (shape t) (fun idx => f (data t idx)).

(** Broadcasting: shapes are aligned at their last dimension; two sizes
    are compatible when they are equal or one of them is 1. *)
Definition broadcast_dim (a b : nat) : result nat :=
  if (a =? b)%nat then Ok a
  else if (a =? 1)%nat then Ok b
  else if (b =? 1)%nat then Ok a
  else Raise RuntimeError.

Fixpoint broadcast_rev (r1 r2 : list nat) : result (list nat) :=
  match r1, r2 with
  | [], _ => Ok r2
  | _, [] => Ok r1
  | a :: r1', b :: r2' =>
      n <- broadcast_dim a b ;;
      r <- broadcast_rev r1' r2' ;;
      Ok (n :: r)
  end.

Definition broadcast_shapes (s1 s2 : list nat) : result (list nat) :=
  r <- broadcast_rev (rev s1) (rev s2) ;;
  Ok (rev r).

(** The index at which an operand of shape [s] is read for the index
    [idx] of the broadcast result: aligned at the last dimension, the
    leading dimensions the operand lacks are dropped and its dimensions of
    size 1 are read at 0. *)
Definition broadcast_index (s idx : list nat) : list nat :=
  rev (map (fun ni => if (fst ni =? 1)%nat then 0%nat else snd ni)
           (combine (rev s) (rev idx))).

(** An elementwise operation with two tensor arguments. *)
Definition zip_with {A B C : Type} (f : A -> B -> C)
    (t : tensor A) (u : tensor B) : result (tensor C) :=
  s <- broadcast_shapes (shape t) (shape u) ;;
  Ok (mkT s (fun idx => f (data t (broadcast_index (shape t) idx))
                          (data u (broadcast_index (shape u) idx)))).

(** [t != u] *)
Definition ne (t u : tensor Z) : result (tensor bool) :=
  zip_with (fun a b => negb (a =? b)%Z) t u.

(** [t ** e] for a boolean exponent: [True] is 1 and [False] is 0. *)
Definition pow_bool (t : tensor R) (e : tensor bool) : result (tensor R) :=
  zip_with (fun b k => (b ^ Nat.b2n k)%R) t e.

Definition shape_eqb (s1 s2 : list nat) : bool :=
  if list_eq_dec Nat.eq_dec s1 s2 then true else false.

(** [t *= u] on a tensor [t]: the product is written into [t], so the
    broadcast shape has to be the shape of [t]. *)
Definition mul_ (t u : tensor R) : result (tensor R) :=
  s <- broadcast_shapes (shape t) (shape u) ;;
  if shape_eqb s (shape t) then
    Ok (mkT (shape t)
            (fun idx => (data t idx * data u (broadcast_index (shape u) idx))%R))
  else Raise RuntimeError.

End Torch.
Import Torch.

(** ** The class [DiffusionKernel] *)

(** What the name [res] of [forward] is bound to: the Python float it is
    initialised with, or a tensor after the first [res *= ...]. *)
Inductive value : Type :=
| Float (r : R)
| Tensor (t : tensor R).

(** [res *= t] *)
Definition imul (res : value) (t : tensor R) : result value :=
  match res with
  | Float r => Ok (Tensor (tmap (Rmult r) t))
  | Tensor u => v <- mul_ u t ;; Ok (Tensor v)
  end.

(** The attributes of a kernel object: [cats], set by the constructor, and
    [lengthscale], the parameter registered by the base class
    [gpytorch.kernels.Kernel] (because of [has_lengthscale = True]) and
    updated by the optimiser. *)
Record DiffusionKernel : Type := {
  cats : list Z;
  lengthscale : tensor R
}.

(** [DiffusionKernel.__init__(categories, **kwargs)].  The argument
    [init_lengthscale] stands for the parameter that [super().__init__]
    creates.  The name [RunTimeError] used in the [raise] statement is not
    bound anywhere (the builtin is [RuntimeError]), so evaluating it raises
    [NameError]. *)
Definition __init__ (categories : option (list Z))
    (init_lengthscale : tensor R) : result DiffusionKernel :=
  match categories with
  | None => Raise (NameError "RunTimeError")
  | Some c => Ok {| cats := c; lengthscale := init_lengthscale |}
  end.

(** The value the source computes for one dimension from one lengthscale
    entry [l] and the category count [c]:
    [(1 - exp(-l * c)) / (1 + (c - 1) * exp(-l * c))]. *)
Definition base (l : R) (c : Z) : R :=
  ((1 - exp (- l * IZR c)) / (1 + (IZR c - 1) * exp (- l * IZR c)))%R.

(** The tensor
    [(1 - torch.exp(-self.lengthscale[..., i] * self.cats[i])) /
     (1 + (self.cats[i] - 1) * torch.exp(-self.lengthscale[..., i] * self.cats[i]))]:
    every operation is elementwise on [self.lengthscale[..., i]]. *)
Definition base_tensor (self : DiffusionKernel) (i : nat)
    : result (tensor R) :=
  l <- select (-1) i (lengthscale self) ;;
  c <- list_index (cats self) i ;;
  Ok (tmap (fun v => base v c) l).

(** The factor of the [diag] branch for dimension [i]:
    [base.unsqueeze(-1) ** ((x1[..., i] != x2[..., i])[:, 0, ...])]. *)
Definition diag_factor (self : DiffusionKernel) (x1 x2 : tensor Z)
    (i : nat) : result (tensor R) :=
  b <- base_tensor self i ;;
  b <- unsqueeze (-1) b ;;
  a1 <- select (-1) i x1 ;;
  a2 <- select (-1) i x2 ;;
  e <- ne a1 a2 ;;
  e <- select 1 0 e ;;
  pow_bool b e.

(** The factor of the full branch for dimension [i]:
    [base.unsqueeze(-1) **
     ((x1[..., i].unsqueeze(-2)[..., None] != x2[..., i].unsqueeze(-2))[0, ...])]. *)
Definition full_factor (self : DiffusionKernel) (x1 x2 : tensor Z)
    (i : nat) : result (tensor R) :=
  b <- base_tensor self i ;;
  b <- unsqueeze (-1) b ;;
  a1 <- select (-1) i x1 ;;
  a1 <- unsqueeze (-2) a1 ;;
  a1 <- unsqueeze (-1) a1 ;;
  a2 <- select (-1) i x2 ;;
  a2 <- unsqueeze (-2) a2 ;;
  e <- ne a1 a2 ;;
  e <- select 0 0 e ;;
  pow_bool b e.

(** [forward], with the axis of [x1] that bounds the loop as a parameter:
    the two copies of the class in the notebook differ only there. *)
Definition forward_on (axis : Z) (self : DiffusionKernel)
    (x1 x2 : tensor Z) (diag last_dim_is_batch : bool) : result value :=
  x1 <- (if last_dim_is_batch
         then (t <- transpose (-1) (-2) x1 ;; unsqueeze (-1) t)
         else Ok x1) ;;
  x2 <- (if last_dim_is_batch
         then (t <- transpose (-1) (-2) x2 ;; unsqueeze (-1) t)
         else Ok x2) ;;
  if diag then
    n <- size x1 axis ;;
    for_range n (fun i res => f <- diag_factor self x1 x2 i ;; imul res f)
              (Float 1)
  else
    n <- size x1 axis ;;
    for_range n (fun i res => f <- full_factor self x1 x2 i ;; imul res f)
              (Float 1).

(** The first copy loops over [range(x1.shape[-1])]. *)
Definition forward := forward_on (-1).

(** The second copy loops over [range(x1.shape[~1])], and [~1] is [-2]. *)
Definition forward_2 := forward_on (-2).

(** ** The kernel formula *)

(** [prod_upto f d] is the product of [f 0], ..., [f (d - 1)], multiplied
    in the order in which the loop of [forward] multiplies. *)
Fixpoint prod_upto (f : nat -> R) (d : nat) : R :=
  match d with
  | O => 1%R
  | S d' => (prod_upto f d' * f d')%R
  end.

(** The not-equal indicator, as an exponent. *)
Definition indicator (a b : Z) : nat := if (a =? b)%Z then 0 else 1.

(** The formula of the specification: the similarity of two category
    indices in one dimension, [base] if they differ and 1 otherwise, and
    the kernel of two points as the product over the dimensions. *)
Definition sim_spec (l : R) (c : Z) (a b : Z) : R :=
  if (a =? b)%Z then 1%R else base l c.

Definition K_spec (c : nat -> Z) (l : nat -> R) (d : nat)
    (a b : nat -> Z) : R :=
  prod_upto (fun i => sim_spec (l i) (c i) (a i) (b i)) d.

(** ** Reading the inputs and outputs of [forward] *)

(** The category count of dimension [i]. *)
Definition cat (self : DiffusionKernel) (i : nat) : Z :=
  nth i (cats self) 0%Z.

(** Point [j] of a two-dimensional batch, and point [j] of slice [q] of a
    three-dimensional batch. *)
Definition point (x : tensor Z) (j : nat) : nat -> Z :=
  fun i => data x [j; i].

Definition point3 (x : tensor Z) (q j : nat) : nat -> Z :=
  fun i => data x [q; j; i].

(** The lengthscale tensor holds the vector [l] of [m] entries: its shape
    is [[m]], or [[1; m]] as for the parameter the base class registers. *)
Definition holds_vector (t : tensor R) (m : nat) (l : nat -> R) : Prop :=
  (shape t = [m] /\ forall i, (i < m)%nat -> data t [i] = l i) \/
  (shape t = [1%nat; m] /\ forall i, (i < m)%nat -> data t [0%nat; i] = l i).

(** Two tensors are the same tensor when they have the same shape and the
    same entry at every index in range. *)
Definition tensor_eq {A : Type} (t u : tensor A) : Prop :=
  shape t = shape u /\
  forall idx, in_range (shape t) idx -> data t idx = data u idx.

Definition value_eq (v w : value) : Prop :=
  match v, w with
  | Float r, Float s => r = s
  | Tensor t, Tensor u => tensor_eq t u
  | _, _ => False
  end.

(** Two calls have the same outcome: the same exception, or results
    related by [R]. *)
Definition same_outcome {A : Type} (R : A -> A -> Prop)
    (m n : result A) : Prop :=
  match m, n with
  | Ok a, Ok b => R a b
  | Raise e, Raise e' => e = e'
  | _, _ => False
  end.

(** [x] is [v] up to [tol]. *)
Definition approx_within (tol x v : R) : Prop := (Rabs (x - v) <= tol)%R.

(** The value of [res] after [n] rounds of the loop of the full branch on
    two-dimensional batches. *)
Definition full_result (self : DiffusionKernel) (l : nat -> R)
    (x1 x2 : tensor Z) (n1 n2 n : nat) (v : value) : Prop :=
  match n with
  | O => v = Float 1
  | S _ =>
      exists t, v = Tensor t /\ shape t = [n1; n2] /\
        forall j k, (j < n1)%nat -> (k < n2)%nat ->
          data t [j; k] = K_spec (cat self) l n (point x1 j) (point x2 k)
  end.

(** The exponent of the full branch,
    [(x1[..., i].unsqueeze(-2)[..., None] != x2[..., i].unsqueeze(-2))[0, ...]],
    as an expression of its own. *)
Definition full_exponent (x1 x2 : tensor Z) (i : nat)
    : result (tensor bool) :=
  a1 <- select (-1) i x1 ;;
  a1 <- unsqueeze (-2) a1 ;;
  a1 <- unsqueeze (-1) a1 ;;
  a2 <- select (-1) i x2 ;;
  a2 <- unsqueeze (-2) a2 ;;
  e <- ne a1 a2 ;;
  select 0 0 e.

(** The terms of the series of [exp (-1)], up to sign. *)
Definition inv_fact (i : nat) : R := (/ INR (fact i))%R.

(** The number of dimensions below [d] in which two points differ. *)
Fixpoint hamming (a b : nat -> Z) (d : nat) : nat :=
  match d with
  | O => 0
  | S d' => hamming a b d' + indicator (a d') (b d')
  end.

(** ** Single-precision evaluation of [base] *)

(** The finite values of the float32 format: [m * 2^e] with
    [|m| < 2^24] and [-149 <= e <= 104]. *)
Definition is_float32 (x : R) : Prop :=
  exists (m : Z) (k : nat),
    (Z.abs m < 2 ^ 24)%Z /\
    (((k <= 149)%nat /\ x = (IZR m / 2 ^ k)%R) \/
     ((k <= 104)%nat /\ x = (IZR m * 2 ^ k)%R)).

(** [y] is a float32 value nearest to the real number [x]: the result of
    an arithmetic operation whose exact result is [x], within the finite
    range (ties may go either way here). *)
Definition rounds_to (x y : R) : Prop :=
  is_float32 y /\
  forall z, is_float32 z -> (Rabs (x - y) <= Rabs (x - z))%R.

(** Two descriptions of [torch.exp] on float32.  [exp32_loose] only asks
    for a float32 value within half of the exact exponential (plus the
    smallest subnormal), far less than an implementation guarantees where
    the exponential does not overflow; [exp32_nearest] is the correctly
    rounded exponential. *)
Definition exp32_loose (p e : R) : Prop :=
  is_float32 e /\ (Rabs (e - exp p) <= exp p / 2 + / 2 ^ 149)%R.

Definition exp32_nearest (p e : R) : Prop := rounds_to (exp p) e.

(** [b] is a value of
    [(1 - exp(-l * c)) / (1 + (c - 1) * exp(-l * c))]
    evaluated in float32, operation by operation, with [expf] for
    [torch.exp]. *)
Definition base32 (expf : R -> R -> Prop) (l : R) (c : Z) (b : R) : Prop :=
  exists p e n q d,
    rounds_to (- l * IZR c) p /\
    expf p e /\
    rounds_to (1 - e) n /\
    rounds_to ((IZR c - 1) * e) q /\
    rounds_to (1 + q) d /\
    rounds_to (n / d) b.

(** ** Concrete inputs *)

(** Tensors from literals. *)
Definition vector (l : list R) : tensor R :=
  mkT [length l] (fun idx => nth (nth 0 idx 0%nat) l 0%R).

Definition row_vector (l : list R) : tensor R :=
  mkT [1%nat; length l] (fun idx => nth (nth 1 idx 0%nat) l 0%R).

Definition matrix (d : nat) (rows : list (list Z)) : tensor Z :=
  mkT [length rows; d]
      (fun idx => nth (nth 1 idx 0%nat) (nth (nth 0 idx 0%nat) rows []) 0%Z).

Definition batch (n d : nat) (mats : list (list (list Z))) : tensor Z :=
  mkT [length mats; n; d]
      (fun idx => nth (nth 2 idx 0%nat)
                      (nth (nth 1 idx 0%nat) (nth (nth 0 idx 0%nat) mats []) [])
                      0%Z).

(** The kernel object and the points of the concrete scenario:
    [cats = [2, 2]], [lengthscale = [1.0, 1.0]], and the points
    [a = [0, 0]], [b = [0, 1]], [c = [1, 1]] as one batch. *)
Definition kernel22 : DiffusionKernel :=
  {| cats := [2%Z; 2%Z]; lengthscale := vector [1%R; 1%R] |}.

Definition points_abc : tensor Z :=
  matrix 2 [[0%Z; 0%Z]; [0%Z; 1%Z]; [1%Z; 1%Z]].

Definition ones (i : nat) : R := nth i [1%R; 1%R] 0%R.

(** The same kernel with its lengthscale in the shape [[1; 2]]. *)
Definition kernel22_row : DiffusionKernel :=
  {| cats := [2%Z; 2%Z]; lengthscale := row_vector [1%R; 1%R] |}.



(** The same kernel with both lengthscales 0. *)
Definition kernel22_zero : DiffusionKernel :=
  {| cats := [2%Z; 2%Z]; lengthscale := vector [0%R; 0%R] |}.

Definition zeros (i : nat) : R := nth i [0%R; 0%R] 0%R.

(** A kernel object whose [cats] is the empty list. *)
Definition kernel_no_cats : DiffusionKernel :=
  {| cats := []; lengthscale := vector [1%R; 1%R] |}.

(** The kernel of the notebook as the first copy builds it: two category
    counts and the lengthscale the base class registers by default, of
    shape [[1; 1]]; and the training inputs of that copy. *)
Definition kernel_default : DiffusionKernel :=
  {| cats := [2%Z; 2%Z]; lengthscale := row_vector [1%R] |}.

Definition train_x : tensor Z := matrix 2 [[1%Z; 0%Z]; [0%Z; 1%Z]].

(** Two batches that agree on their first slice only, and a third batch
    to compare them with. *)
Definition batch_x1 : tensor Z := batch 1 2 [[[0%Z; 0%Z]]; [[1%Z; 1%Z]]].

Definition batch_x1' : tensor Z := batch 1 2 [[[0%Z; 0%Z]]; [[0%Z; 1%Z]]].

Definition batch_x2 : tensor Z := batch 1 2 [[[0%Z; 1%Z]]; [[1%Z; 1%Z]]].

(** * Properties *)

(** ** Evaluating tensor expressions on shapes of known rank *)

Lemma ltb_true (a b : nat) : (a < b)%nat -> (a <? b)%nat = true.
Proof. apply Nat.ltb_lt. Qed.

Lemma broadcast_dim_1_l (n : nat) : broadcast_dim 1 n = Ok n.
Proof.
  unfold broadcast_dim. destruct (Nat.eqb_spec 1 n); [subst|]; reflexivity.
Qed.

Lemma broadcast_dim_1_r (n : nat) : broadcast_dim n 1 = Ok n.
Proof.
  unfold broadcast_dim. destruct (Nat.eqb_spec n 1); reflexivity.
Qed.

Lemma broadcast_dim_same (n : nat) : broadcast_dim n n = Ok n.
Proof. unfold broadcast_dim. now rewrite Nat.eqb_refl. Qed.

Lemma shape_eqb_refl (s : list nat) : shape_eqb s s = true.
Proof. unfold shape_eqb. destruct (list_eq_dec Nat.eq_dec s s); congruence. Qed.

(** An index in range is read unchanged through broadcasting. *)
Lemma read_in_range (n j : nat) :
  (j < n)%nat -> (if (n =? 1)%nat then 0%nat else j) = j.
Proof. intros H. destruct (Nat.eqb_spec n 1); lia. Qed.

Ltac eval_wrap :=
  repeat match goal with
  | |- context [wrap_dim ?d ?n] =>
      let r := eval vm_compute in (wrap_dim d n) in
      change (wrap_dim d n) with r
  end.

Ltac eval_shapes :=
  repeat match goal with
  | |- context [@remove_at nat ?p (?a :: ?l)] =>
      let r := eval cbv [remove_at firstn skipn app] in
                 (@remove_at nat p (a :: l)) in
      change (@remove_at nat p (a :: l)) with r
  | |- context [@insert_at nat ?p ?x (?a :: ?l)] =>
      let r := eval cbv [insert_at firstn skipn app] in
                 (@insert_at nat p x (a :: l)) in
      change (@insert_at nat p x (a :: l)) with r
  | |- context [@insert_at nat ?p ?x []] =>
      let r := eval cbv [insert_at firstn skipn app] in
                 (@insert_at nat p x []) in
      change (@insert_at nat p x []) with r
  end.

(** One round of evaluation of a tensor expression whose operands are
    given by [mkT] with shapes of known length. *)
Ltac tstep :=
  cbn [bind ndim shape data length tmap];
  eval_wrap;
  cbn [bind nth rev app broadcast_rev];
  eval_shapes;
  rewrite ?broadcast_dim_1_l, ?broadcast_dim_1_r, ?broadcast_dim_same,
          ?shape_eqb_refl;
  change (0 <? 1)%nat with true;
  cbn iota.

Ltac teval :=
  unfold select, unsqueeze, ne, pow_bool, mul_, zip_with, broadcast_shapes,
         size;
  repeat (progress tstep).

(** Reading the result at an index of known length. *)
Ltac tread :=
  cbn [data];
  cbv [broadcast_index insert_at remove_at];
  cbn [length skipn firstn rev app combine map fst snd];
  change (1 =? 1)%nat with true;
  cbn iota;
  repeat match goal with
  | H : (?j < ?n)%nat |- context [if (?n =? 1)%nat then 0%nat else ?j] =>
      rewrite (read_in_range n j H)
  end.

Lemma full_factor_2d (self : DiffusionKernel) (x1 x2 : tensor Z)
    (n1 n2 d1 d2 m : nat) (l : nat -> R) (i : nat) (c : Z) :
  shape x1 = [n1; d1] -> shape x2 = [n2; d2] ->
  holds_vector (lengthscale self) m l ->
  (i < d1)%nat -> (i < d2)%nat -> (i < m)%nat ->
  list_index (cats self) i = Ok c ->
  exists t, full_factor self x1 x2 i = Ok t /\ shape t = [n1; n2] /\
    forall j k, (j < n1)%nat -> (k < n2)%nat ->
      data t [j; k] =
      (base (l i) c ^ Nat.b2n (negb (data x1 [j; i] =? data x2 [k; i])%Z))%R.
Proof.
  destruct self as [cs [sl g]], x1 as [s1 f1], x2 as [s2 f2].
  cbn [shape cats lengthscale data].
  intros -> -> Hl H1 H2 Hm Hc.
  unfold full_factor, base_tensor. cbn [cats lengthscale].
  destruct Hl as [[Hs Hg] | [Hs Hg]]; cbn [shape data] in Hs, Hg; subst sl;
    unfold select at 1; tstep; rewrite (ltb_true _ _ Hm), Hc; tstep.
  - teval. rewrite (ltb_true _ _ H1), (ltb_true _ _ H2). teval.
    eexists; split; [reflexivity|]. split; [reflexivity|].
    intros j k Hj Hk. tread. rewrite (Hg i Hm). reflexivity.
  - teval. rewrite (ltb_true _ _ H1), (ltb_true _ _ H2). teval.
    eexists; split; [reflexivity|]. split; [reflexivity|].
    intros j k Hj Hk. tread. rewrite (Hg i Hm). reflexivity.
Qed.

(** ** The loop of the full branch on two-dimensional batches *)

Lemma for_each_app {A : Type} (body : nat -> A -> result A)
    (l1 l2 : list nat) (acc : A) :
  for_each body (l1 ++ l2) acc =
  (a <- for_each body l1 acc ;; for_each body l2 a).
Proof.
  revert acc. induction l1 as [|i l1 IH]; intros acc; cbn; [reflexivity|].
  destruct (body i acc); cbn; [apply IH | reflexivity].
Qed.

Lemma for_range_S {A : Type} (n : nat) (body : nat -> A -> result A)
    (acc : A) :
  for_range (S n) body acc = (a <- for_range n body acc ;; body n a).
Proof.
  unfold for_range. rewrite seq_S, for_each_app. cbn.
  destruct (for_each body (seq 0 n) acc); cbn; [|reflexivity].
  destruct (body n a); reflexivity.
Qed.

Lemma list_index_cat (self : DiffusionKernel) (i : nat) :
  (i < length (cats self))%nat -> list_index (cats self) i = Ok (cat self i).
Proof.
  intros H. unfold list_index, cat.
  destruct (nth_error (cats self) i) eqn:E.
  - now rewrite (nth_error_nth _ _ _ E).
  - apply nth_error_None in E. lia.
Qed.

Lemma pow_b2n_ne (r : R) (a b : Z) (l : R) (c : Z) :
  r = base l c ->
  (r ^ Nat.b2n (negb (a =? b)%Z))%R = sim_spec l c a b.
Proof.
  intros ->. unfold sim_spec. destruct (a =? b)%Z; cbn; lra.
Qed.

(** [res *= f] on matrices of one shape, and on the initial float. *)
Lemma imul_2d (v : value) (f : tensor R) (n1 n2 : nat) :
  shape f = [n1; n2] ->
  match v with
  | Float _ => True
  | Tensor u => shape u = [n1; n2]
  end ->
  exists t, imul v f = Ok (Tensor t) /\ shape t = [n1; n2] /\
    forall j k, (j < n1)%nat -> (k < n2)%nat ->
      data t [j; k] =
      (match v with Float r => r | Tensor u => data u [j; k] end
       * data f [j; k])%R.
Proof.
  destruct f as [sf g]; cbn [shape data]; intros -> Hv.
  destruct v as [r | [su h]]; cbn [shape data imul] in *.
  - eexists; split; [reflexivity|]. split; [reflexivity|].
    intros; reflexivity.
  - subst su. teval.
    eexists; split; [reflexivity|]. split; [reflexivity|].
    intros j k Hj Hk. tread. reflexivity.
Qed.

Lemma full_loop_2d (self : DiffusionKernel) (x1 x2 : tensor Z)
    (n1 n2 d1 d2 m : nat) (l : nat -> R) (n : nat) :
  shape x1 = [n1; d1] -> shape x2 = [n2; d2] ->
  holds_vector (lengthscale self) m l ->
  (n <= d1)%nat -> (n <= d2)%nat -> (n <= m)%nat ->
  (n <= length (cats self))%nat ->
  exists v,
    for_range n (fun i res => f <- full_factor self x1 x2 i ;; imul res f)
              (Float 1) = Ok v /\
    full_result self l x1 x2 n1 n2 n v.
Proof.
  intros Hx1 Hx2 Hl. induction n as [|n IH]; intros H1 H2 Hm Hc.
  - exists (Float 1). split; reflexivity.
  - destruct IH as (v & Hv & Hres); try lia.
    rewrite for_range_S, Hv. cbn [bind].
    destruct (full_factor_2d self x1 x2 n1 n2 d1 d2 m l n (cat self n))
      as (f & Hf & Hsf & Hdf); auto; try lia.
    { apply list_index_cat. lia. }
    rewrite Hf. cbn [bind].
    destruct (imul_2d v f n1 n2 Hsf) as (t & Ht & Hst & Hdt).
    { destruct n; cbn in Hres; [subst v; exact I|].
      destruct Hres as (u & -> & Hu & _). exact Hu. }
    exists (Tensor t). split; [exact Ht|].
    cbn. exists t. split; [reflexivity|]. split; [exact Hst|].
    intros j k Hj Hk. rewrite (Hdt j k Hj Hk), (Hdf j k Hj Hk).
    unfold K_spec. cbn [prod_upto].
    rewrite (pow_b2n_ne _ _ _ (l n) (cat self n) eq_refl).
    unfold point. f_equal.
    destruct n; cbn in Hres.
    + subst v. reflexivity.
    + destruct Hres as (u & -> & _ & Hu). rewrite (Hu j k Hj Hk).
      reflexivity.
Qed.

Lemma forward_full_2d (self : DiffusionKernel) (x1 x2 : tensor Z)
    (n1 n2 d1 d2 m : nat) (l : nat -> R) :
  shape x1 = [n1; d1] -> shape x2 = [n2; d2] ->
  holds_vector (lengthscale self) m l ->
  (d1 <= d2)%nat -> (d1 <= m)%nat -> (d1 <= length (cats self))%nat ->
  exists v, forward self x1 x2 false false = Ok v /\
            full_result self l x1 x2 n1 n2 d1 v.
Proof.
  intros Hx1 Hx2 Hl H2 Hm Hc.
  unfold forward, forward_on. cbn [bind].
  unfold size, ndim. rewrite Hx1. cbn [length]. eval_wrap. cbn [bind nth].
  apply (full_loop_2d self x1 x2 n1 n2 d1 d2 m l d1); auto.
Qed.

(** ** The decay [base] as a real function *)

Section Base.

Open Scope R_scope.

Lemma exp_neg_lt_1 (x : R) : 0 < x -> 0 < exp (- x) < 1.
Proof.
  intros Hx. split; [apply exp_pos|].
  rewrite <- exp_0. apply exp_increasing. lra.
Qed.


(** [base] with [exp(-l * c)] named. *)
Lemma base_eq (l : R) (c : Z) :
  base l c = (1 - exp (- (l * IZR c))) / (1 + (IZR c - 1) * exp (- (l * IZR c))).
Proof. unfold base. now rewrite <- Ropp_mult_distr_l. Qed.

Lemma base_bounds (l : R) (c : Z) :
  0 < l -> (2 <= c)%Z -> 0 < base l c < 1.
Proof.
  intros Hl Hc. apply IZR_le in Hc.
  rewrite base_eq.
  assert (He : 0 < exp (- (l * IZR c)) < 1) by (apply exp_neg_lt_1; nra).
  set (e := exp (- (l * IZR c))) in *.
  assert (Hd : 0 < 1 + (IZR c - 1) * e) by nra.
  split.
  - apply Rdiv_lt_0_compat; lra.
  - apply (Rmult_lt_reg_r (1 + (IZR c - 1) * e)); [exact Hd|].
    replace ((1 - e) / (1 + (IZR c - 1) * e) * (1 + (IZR c - 1) * e))
      with (1 - e) by (field; lra).
    nra.
Qed.


Lemma sim_spec_bounds (l : R) (c a b : Z) :
  0 < l -> (2 <= c)%Z -> 0 < sim_spec l c a b <= 1.
Proof.
  intros Hl Hc. unfold sim_spec.
  destruct (a =? b)%Z; [lra|].
  pose proof (base_bounds l c Hl Hc). lra.
Qed.

Lemma prod_upto_bounds (f : nat -> R) (d : nat) :
  (forall i, (i < d)%nat -> 0 < f i <= 1) -> 0 < prod_upto f d <= 1.
Proof.
  induction d as [|d IH]; intros H; cbn; [lra|].
  assert (0 < prod_upto f d <= 1) by (apply IH; intros; apply H; lia).
  assert (0 < f d <= 1) by (apply H; lia).
  nra.
Qed.

Lemma prod_upto_le (f g : nat -> R) (d : nat) :
  (forall i, (i < d)%nat -> 0 < f i <= g i) ->
  0 < prod_upto f d <= prod_upto g d.
Proof.
  induction d as [|d IH]; intros H; cbn; [lra|].
  assert (0 < prod_upto f d <= prod_upto g d)
    by (apply IH; intros; apply H; lia).
  assert (0 < f d <= g d) by (apply H; lia).
  split; [nra|]. apply Rmult_le_compat; lra.
Qed.

Lemma prod_upto_ext (f g : nat -> R) (d : nat) :
  (forall i, (i < d)%nat -> f i = g i) -> prod_upto f d = prod_upto g d.
Proof.
  induction d as [|d IH]; intros H; cbn; [reflexivity|].
  rewrite IH, (H d) by (intros; try apply H; lia). reflexivity.
Qed.

Lemma prod_upto_ones (f : nat -> R) (d : nat) :
  (forall i, (i < d)%nat -> f i = 1) -> prod_upto f d = 1.
Proof.
  induction d as [|d IH]; intros H; cbn; [reflexivity|].
  rewrite IH, (H d) by (intros; try apply H; lia). lra.
Qed.

(** Raising one factor of a product of positive factors raises the
    product. *)
Lemma prod_upto_raise (f g : nat -> R) (d i0 : nat) :
  (i0 < d)%nat ->
  (forall i, (i < d)%nat -> 0 < f i) ->
  (forall i, (i < d)%nat -> i <> i0 -> f i = g i) ->
  f i0 < g i0 ->
  prod_upto f d < prod_upto g d.
Proof.
  intros Hi0 Hpos Heq Hlt.
  induction d as [|d IH]; [lia|]. cbn.
  assert (Hp : forall n, (n <= d)%nat -> 0 < prod_upto f n).
  { induction n as [|n IHn]; intros Hn; cbn; [lra|].
    apply Rmult_lt_0_compat; [apply IHn; lia | apply Hpos; lia]. }
  destruct (Nat.eq_dec i0 d) as [->|Hne].
  - rewrite <- (prod_upto_ext f g d) by (intros; apply Heq; lia).
    apply Rmult_lt_compat_l; [apply Hp; lia | exact Hlt].
  - rewrite <- (Heq d) by lia.
    apply Rmult_lt_compat_r; [apply Hpos; lia|].
    apply IH; [lia | intros; apply Hpos; lia | intros; apply Heq; lia].
Qed.

Lemma K_spec_bounds (c : nat -> Z) (l : nat -> R) (d : nat)
    (a b : nat -> Z) :
  (forall i, (i < d)%nat -> 0 < l i) ->
  (forall i, (i < d)%nat -> (2 <= c i)%Z) ->
  0 < K_spec c l d a b <= 1.
Proof.
  intros Hl Hc. apply prod_upto_bounds.
  intros i Hi. apply sim_spec_bounds; auto.
Qed.

Lemma K_spec_same (c : nat -> Z) (l : nat -> R) (d : nat)
    (a b : nat -> Z) :
  (forall i, (i < d)%nat -> a i = b i) -> K_spec c l d a b = 1.
Proof.
  intros H. apply prod_upto_ones. intros i Hi.
  unfold sim_spec. now rewrite (H i Hi), Z.eqb_refl.
Qed.

End Base.

(** ** Bounds on [exp (-1)] and [exp (-2)] *)

Section ExpBounds.

Open Scope R_scope.

Lemma inv_fact_0 : inv_fact 0 = 1.
Proof. unfold inv_fact. cbn. lra. Qed.

Lemma inv_fact_S (n : nat) : inv_fact (S n) = inv_fact n / INR (S n).
Proof.
  unfold inv_fact. rewrite fact_simpl, mult_INR.
  field. split; [apply INR_fact_neq_0 | apply not_0_INR; lia].
Qed.

Lemma inv_fact_decreasing : Un_decreasing inv_fact.
Proof.
  intros n. unfold inv_fact.
  apply Rinv_le_contravar; [apply INR_fact_lt_0|].
  apply le_INR, fact_le. lia.
Qed.

Lemma inv_fact_cv : Un_cv inv_fact 0.
Proof.
  intros eps Heps.
  destruct (cv_speed_pow_fact 1 eps Heps) as [N HN].
  exists N. intros n Hn. specialize (HN n Hn).
  unfold inv_fact. rewrite pow1 in HN. unfold Rdiv in HN.
  now rewrite Rmult_1_l in HN.
Qed.

Lemma exp_neg1_series :
  Un_cv (fun N => sum_f_R0 (tg_alt inv_fact) N) (exp (-1)).
Proof.
  unfold exp. destruct (exist_exp (-1)) as [x Hx]. cbn [proj1_sig].
  intros eps Heps. destruct (Hx eps Heps) as [N HN].
  exists N. intros n Hn.
  rewrite (sum_eq _ (fun i => / INR (fact i) * (-1) ^ i)).
  - apply HN, Hn.
  - intros i _. unfold tg_alt, inv_fact. apply Rmult_comm.
Qed.

Lemma exp_neg1_bounds : 133496 / 362880 <= exp (-1) <= 14833 / 40320.
Proof.
  pose proof (alternated_series_ineq inv_fact (exp (-1)) 4
                inv_fact_decreasing inv_fact_cv exp_neg1_series) as H.
  cbn [Nat.mul Nat.add sum_f_R0] in H. unfold tg_alt in H.
  rewrite !inv_fact_S, inv_fact_0 in H.
  cbn [pow INR] in H. lra.
Qed.

Lemma exp_neg2_bounds : 135334 / 1000000 < exp (-2) < 135338 / 1000000.
Proof.
  replace (-2) with (-1 + -1) by lra. rewrite exp_plus.
  pose proof exp_neg1_bounds. nra.
Qed.

(** [base] for two categories and lengthscale 1. *)
Lemma base_1_2 : base 1 2 = (1 - exp (-2)) / (1 + exp (-2)).
Proof.
  unfold base. replace (- (1) * 2) with (-2) by lra.
  replace ((2 - 1) * exp (-2)) with (exp (-2)) by lra. reflexivity.
Qed.

Lemma base_1_2_bounds : 76158 / 100000 < base 1 2 < 76160 / 100000.
Proof.
  rewrite base_1_2. pose proof exp_neg2_bounds as H.
  set (u := exp (-2)) in *.
  split.
  - apply (Rmult_lt_reg_r (1 + u)); [lra|].
    replace ((1 - u) / (1 + u) * (1 + u)) with (1 - u) by (field; lra). lra.
  - apply (Rmult_lt_reg_r (1 + u)); [lra|].
    replace ((1 - u) / (1 + u) * (1 + u)) with (1 - u) by (field; lra). lra.
Qed.

End ExpBounds.

(** ** [base] in single precision *)

Section Float32.

Open Scope R_scope.

Ltac abs_lra := unfold Rabs in *; repeat destruct Rcase_abs; lra.

Lemma is_float32_IZR (m : Z) : (Z.abs m < 2 ^ 24)%Z -> is_float32 (IZR m).
Proof.
  intros H. exists m, 0%nat. split; [exact H|].
  right. split; [lia|]. cbn. lra.
Qed.

Lemma is_float32_inv_pow (m : Z) (k : nat) :
  (Z.abs m < 2 ^ 24)%Z -> (k <= 149)%nat -> is_float32 (IZR m / 2 ^ k).
Proof. intros H Hk. exists m, k. auto. Qed.

Lemma Rabs_IZR_nonzero (n : Z) : n <> 0%Z -> 1 <= Rabs (IZR n).
Proof.
  intros H. rewrite <- abs_IZR. apply IZR_le. lia.
Qed.

Lemma pow2_pos (k : nat) : 0 < 2 ^ k.
Proof. apply pow_lt. lra. Qed.

Lemma pow2_le (j k : nat) : (j <= k)%nat -> 2 ^ j <= 2 ^ k.
Proof. intros H. apply Rle_pow; [lra | exact H]. Qed.

Lemma pow2_IZR (k : nat) : 2 ^ k = IZR (2 ^ Z.of_nat k).
Proof. apply pow_IZR. Qed.

(** No float32 value other than 1 is closer to 1 than [2^-24]. *)
Lemma float32_near_one (z : R) :
  is_float32 z -> Rabs (z - 1) < / 2 ^ 24 -> z = 1.
Proof.
  intros (m & k & Hm & [[Hk ->] | [Hk ->]]) Hz.
  - pose proof (pow2_pos k) as Hp.
    destruct (Nat.le_gt_cases k 24) as [Hle|Hgt].
    + destruct (Z.eq_dec (m - 2 ^ Z.of_nat k) 0) as [E|E].
      * replace m with (2 ^ Z.of_nat k)%Z by lia.
        rewrite <- pow2_IZR. field. lra.
      * exfalso. apply Rabs_IZR_nonzero in E.
        rewrite minus_IZR, <- pow2_IZR in E.
        assert (Hq : IZR m / 2 ^ k - 1 = (IZR m - 2 ^ k) * / 2 ^ k)
          by (field; lra).
        rewrite Hq, Rabs_mult, (Rabs_pos_eq (/ 2 ^ k)) in Hz
          by (left; now apply Rinv_0_lt_compat).
        pose proof (pow2_le k 24 Hle) as H24.
        assert (/ 2 ^ 24 <= / 2 ^ k)
          by (apply Rinv_le_contravar; [exact Hp | exact H24]).
        assert (0 < / 2 ^ k) by now apply Rinv_0_lt_compat.
        nra.
    + exfalso.
      assert (Hm' : Rabs (IZR m) < 2 ^ 24).
      { rewrite <- abs_IZR. rewrite pow2_IZR. apply IZR_lt. exact Hm. }
      pose proof (pow2_le 25 k Hgt) as H25.
      assert (H0 : 0 < / 2 ^ k) by now apply Rinv_0_lt_compat.
      assert (Hi : / 2 ^ k <= / 2 ^ 25)
        by (apply Rinv_le_contravar; [apply pow2_pos | exact H25]).
      assert (Hh : Rabs (IZR m / 2 ^ k) <= / 2).
      { unfold Rdiv. rewrite Rabs_mult, (Rabs_pos_eq (/ 2 ^ k)) by lra.
        assert (Rabs (IZR m) * / 2 ^ k <= 2 ^ 24 * / 2 ^ 25).
        { apply Rmult_le_compat; try lra. apply Rabs_pos. }
        replace (2 ^ 24 * / 2 ^ 25) with (/ 2) in *
          by (cbn [pow]; field).
        lra. }
      assert (/ 2 ^ 24 <= / 2) by (cbn [pow]; lra).
      abs_lra.
  - rewrite pow2_IZR, <- mult_IZR in *.
    destruct (Z.eq_dec (m * 2 ^ Z.of_nat k - 1) 0) as [E|E].
    + f_equal. lia.
    + exfalso. apply Rabs_IZR_nonzero in E. rewrite minus_IZR in E.
      assert (/ 2 ^ 24 <= 1) by (cbn [pow]; lra).
      lra.
Qed.

(** A float32 value rounds to itself. *)
Lemma rounds_to_exact (x y : R) : is_float32 x -> rounds_to x y -> y = x.
Proof.
  intros Hx [_ H]. specialize (H x Hx). abs_lra.
Qed.

Lemma rounds_to_self (x : R) : is_float32 x -> rounds_to x x.
Proof.
  intros Hx. split; [exact Hx|]. intros z _.
  replace (x - x) with 0 by lra. rewrite Rabs_R0. apply Rabs_pos.
Qed.

(** A real number within [2^-25] of 1 rounds to 1. *)
Lemma rounds_to_one (x y : R) :
  Rabs (x - 1) < / 2 ^ 25 -> rounds_to x y -> y = 1.
Proof.
  intros Hx [Hy H].
  assert (H1 : is_float32 1) by (apply (is_float32_IZR 1); reflexivity).
  specialize (H 1 H1).
  apply float32_near_one; [exact Hy|].
  replace (/ 2 ^ 24) with (2 * / 2 ^ 25) by (cbn [pow]; field).
  abs_lra.
Qed.

Lemma rounds_to_one_intro (x : R) :
  Rabs (x - 1) < / 2 ^ 25 -> rounds_to x 1.
Proof.
  intros Hx.
  assert (H1 : is_float32 1) by (apply (is_float32_IZR 1); reflexivity).
  split; [exact H1|]. intros z Hz.
  destruct (Req_dec z 1) as [->|Hne]; [lra|].
  assert (Hgap : / 2 ^ 24 <= Rabs (z - 1)).
  { destruct (Rle_lt_dec (/ 2 ^ 24) (Rabs (z - 1))) as [Hle|Hlt];
      [exact Hle|].
    exfalso. apply Hne. now apply float32_near_one. }
  replace (/ 2 ^ 24) with (2 * / 2 ^ 25) in Hgap by (cbn [pow]; field).
  abs_lra.
Qed.

(** Bounds on [exp (-20)] and [exp (-40)]. *)
Lemma exp_neg20_bounds :
  2059 / 1000000000000 < exp (-20) < 2063 / 1000000000000.
Proof.
  pose proof exp_neg1_bounds as H1. pose proof exp_neg2_bounds as H2.
  assert (H4 : 18315 / 1000000 < exp (-4) < 18317 / 1000000).
  { replace (-4) with (-2 + -2) by lra. rewrite exp_plus. nra. }
  assert (H5 : 6737 / 1000000 < exp (-5) < 6739 / 1000000).
  { replace (-5) with (-4 + -1) by lra. rewrite exp_plus. nra. }
  assert (H10 : 45380 / 1000000000 < exp (-10) < 45415 / 1000000000).
  { replace (-10) with (-5 + -5) by lra. rewrite exp_plus. nra. }
  replace (-20) with (-10 + -10) by lra. rewrite exp_plus. nra.
Qed.

End Float32.

Section Float32Base.

Open Scope R_scope.

(** When the exponential is a float32 value below [2^-25], every float32
    evaluation of [base] for two categories gives exactly 1. *)
Lemma base32_one (expf : R -> R -> Prop) (l b : R) :
  is_float32 (- l * 2) ->
  (forall e, expf (- l * 2) e -> is_float32 e /\ 0 <= e < / 2 ^ 25) ->
  base32 expf l 2 b -> b = 1.
Proof.
  intros Hp He (p & e & n & q & d & Rp & Re & Rn & Rq & Rd & Rb).
  apply (rounds_to_exact _ _ Hp) in Rp. subst p.
  destruct (He e Re) as [Fe Be].
  assert (Hn : n = 1).
  { apply (rounds_to_one (1 - e)); [|exact Rn].
    unfold Rabs. destruct Rcase_abs; lra. }
  assert (Hq : q = e).
  { replace ((2 - 1) * e) with e in Rq by lra.
    exact (rounds_to_exact _ _ Fe Rq). }
  assert (Hd : d = 1).
  { apply (rounds_to_one (1 + q)); [|exact Rd].
    subst q. unfold Rabs. destruct Rcase_abs; lra. }
  subst n d. replace (1 / 1) with 1 in Rb by field.
  apply (rounds_to_exact 1); [|exact Rb].
  apply (is_float32_IZR 1). reflexivity.
Qed.

Lemma base32_one_intro (expf : R -> R -> Prop) (l e : R) :
  is_float32 (- l * 2) -> expf (- l * 2) e ->
  is_float32 e -> 0 <= e < / 2 ^ 25 ->
  base32 expf l 2 1.
Proof.
  intros Hp Re Fe Be.
  assert (F1 : is_float32 1) by (apply (is_float32_IZR 1); reflexivity).
  exists (- l * 2), e, 1, e, 1.
  split; [|split; [|split; [|split; [|split]]]].
  - apply rounds_to_self, Hp.
  - exact Re.
  - apply rounds_to_one_intro. unfold Rabs. destruct Rcase_abs; lra.
  - replace ((2 - 1) * e) with e by lra. now apply rounds_to_self.
  - apply rounds_to_one_intro. unfold Rabs. destruct Rcase_abs; lra.
  - replace (1 / 1) with 1 by field. now apply rounds_to_self.
Qed.

Lemma tiny_149 : 0 < / 2 ^ 149 < / 1000000000000.
Proof. cbn [pow]. lra. Qed.

Lemma inv_pow_25 : / 2 ^ 25 = / 33554432.
Proof. cbn [pow]. f_equal. lra. Qed.

(** At lengthscale 10 with two categories, any value of [torch.exp]
    within the loose bound is below [2^-25]. *)
Lemma exp32_loose_neg20 (e : R) :
  exp32_loose (- (10) * 2) e -> is_float32 e /\ 0 <= e < / 2 ^ 25.
Proof.
  replace (- (10) * 2) with (-20) by lra. intros [Fe He].
  split; [exact Fe|].
  pose proof exp_neg20_bounds. pose proof tiny_149. rewrite inv_pow_25.
  unfold Rabs in He. destruct Rcase_abs; lra.
Qed.

Lemma exp32_loose_neg20_intro : exp32_loose (- (10) * 2) (1 / 2 ^ 29).
Proof.
  replace (- (10) * 2) with (-20) by lra. split.
  - apply (is_float32_inv_pow 1 29); [reflexivity | lia].
  - pose proof exp_neg20_bounds. pose proof tiny_149.
    replace (1 / 2 ^ 29) with (/ 536870912) by (cbn [pow]; field).
    unfold Rabs. destruct Rcase_abs; lra.
Qed.

Lemma is_float32_neg20 : is_float32 (- (10) * 2).
Proof.
  replace (- (10) * 2) with (IZR (-20)) by lra.
  apply is_float32_IZR. reflexivity.
Qed.

(** At lengthscale [2^-40] with two categories the correctly rounded
    exponential is 1. *)
Lemma scaled_tiny : - / 2 ^ 40 * 2 = IZR (-1) / 2 ^ 39.
Proof. cbn [pow]. field. Qed.

Lemma exp_tiny_near_one : Rabs (exp (IZR (-1) / 2 ^ 39) - 1) < / 2 ^ 25.
Proof.
  set (x := IZR (-1) / 2 ^ 39).
  assert (Hx : - / 2 ^ 26 < x < 0).
  { unfold x. cbn [pow]. lra. }
  pose proof (exp_ineq1_le x) as Hlo.
  assert (Hhi : exp x < 1).
  { rewrite <- exp_0. apply exp_increasing. lra. }
  assert (/ 2 ^ 26 < / 2 ^ 25) by (cbn [pow]; lra).
  unfold Rabs. destruct Rcase_abs; lra.
Qed.

Lemma base32_zero (b : R) :
  base32 exp32_nearest (/ 2 ^ 40) 2 b -> b = 0.
Proof.
  intros (p & e & n & q & d & Rp & Re & Rn & Rq & Rd & Rb).
  assert (F0 : is_float32 0) by (apply (is_float32_IZR 0); reflexivity).
  assert (F1 : is_float32 1) by (apply (is_float32_IZR 1); reflexivity).
  assert (F2 : is_float32 2) by (apply (is_float32_IZR 2); reflexivity).
  rewrite scaled_tiny in Rp.
  apply rounds_to_exact in Rp;
    [|apply is_float32_inv_pow; [reflexivity | lia]].
  subst p. apply (rounds_to_one _ _ exp_tiny_near_one) in Re. subst e.
  replace (1 - 1) with 0 in Rn by lra.
  apply (rounds_to_exact _ _ F0) in Rn. subst n.
  replace ((2 - 1) * 1) with 1 in Rq by lra.
  apply (rounds_to_exact _ _ F1) in Rq. subst q.
  replace (1 + 1) with 2 in Rd by lra.
  apply (rounds_to_exact _ _ F2) in Rd. subst d.
  replace (0 / 2) with 0 in Rb by field.
  exact (rounds_to_exact _ _ F0 Rb).
Qed.

Lemma base32_zero_intro : base32 exp32_nearest (/ 2 ^ 40) 2 0.
Proof.
  assert (F0 : is_float32 0) by (apply (is_float32_IZR 0); reflexivity).
  assert (F1 : is_float32 1) by (apply (is_float32_IZR 1); reflexivity).
  assert (F2 : is_float32 2) by (apply (is_float32_IZR 2); reflexivity).
  exists (IZR (-1) / 2 ^ 39), 1, 0, 1, 2.
  split; [|split; [|split; [|split; [|split]]]].
  - rewrite scaled_tiny. apply rounds_to_self.
    apply is_float32_inv_pow; [reflexivity | lia].
  - apply rounds_to_one_intro, exp_tiny_near_one.
  - replace (1 - 1) with 0 by lra. now apply rounds_to_self.
  - replace ((2 - 1) * 1) with 1 by lra. now apply rounds_to_self.
  - replace (1 + 1) with 2 by lra. now apply rounds_to_self.
  - replace (0 / 2) with 0 by field. now apply rounds_to_self.
Qed.

End Float32Base.

Section Float32Saturation.

Open Scope R_scope.

Lemma exp_neg40_bounds :
  4239 / 1000000000000000000000 < exp (-40)
  < 4257 / 1000000000000000000000.
Proof.
  pose proof exp_neg20_bounds.
  replace (-40) with (-20 + -20) by lra. rewrite exp_plus. nra.
Qed.

Lemma exp32_loose_neg40 (e : R) :
  exp32_loose (- (20) * 2) e -> is_float32 e /\ 0 <= e < / 2 ^ 25.
Proof.
  replace (- (20) * 2) with (-40) by lra. intros [Fe He].
  split; [exact Fe|].
  pose proof exp_neg40_bounds. pose proof tiny_149. rewrite inv_pow_25.
  unfold Rabs in He. destruct Rcase_abs; lra.
Qed.

Lemma exp32_loose_neg40_intro : exp32_loose (- (20) * 2) (1 / 2 ^ 58).
Proof.
  replace (- (20) * 2) with (-40) by lra. split.
  - apply (is_float32_inv_pow 1 58); [reflexivity | lia].
  - pose proof exp_neg40_bounds. pose proof tiny_149.
    replace (1 / 2 ^ 58) with (/ 288230376151711744) by (cbn [pow]; field).
    unfold Rabs. destruct Rcase_abs; lra.
Qed.

Lemma is_float32_neg40 : is_float32 (- (20) * 2).
Proof.
  replace (- (20) * 2) with (IZR (-40)) by lra.
  apply is_float32_IZR. reflexivity.
Qed.

(** In single precision [base] is saturated at 1 from lengthscale 10 on
    (two categories): raising the lengthscale from 10 to 20 leaves it
    unchanged. *)
Lemma base32_saturates :
  base32 exp32_loose 10 2 1 /\ base32 exp32_loose 20 2 1 /\
  forall b b', base32 exp32_loose 10 2 b -> base32 exp32_loose 20 2 b' ->
    b = b'.
Proof.
  split; [|split].
  - apply (base32_one_intro exp32_loose 10 (1 / 2 ^ 29)).
    + exact is_float32_neg20.
    + exact exp32_loose_neg20_intro.
    + apply (is_float32_inv_pow 1 29); [reflexivity | lia].
    + exact (proj2 (exp32_loose_neg20 _ exp32_loose_neg20_intro)).
  - apply (base32_one_intro exp32_loose 20 (1 / 2 ^ 58)).
    + exact is_float32_neg40.
    + exact exp32_loose_neg40_intro.
    + apply (is_float32_inv_pow 1 58); [reflexivity | lia].
    + exact (proj2 (exp32_loose_neg40 _ exp32_loose_neg40_intro)).
  - intros b b' Hb Hb'.
    rewrite (base32_one exp32_loose 10 b is_float32_neg20
               exp32_loose_neg20 Hb).
    rewrite (base32_one exp32_loose 20 b' is_float32_neg40
               exp32_loose_neg40 Hb').
    reflexivity.
Qed.

End Float32Saturation.

(** ** The full branch on two-dimensional batches *)

Lemma sim_spec_indicator (l : R) (c a b : Z) :
  sim_spec l c a b = (base l c ^ indicator a b)%R.
Proof. unfold sim_spec, indicator. destruct (a =? b)%Z; cbn; lra. Qed.

Lemma K_spec_indicator (c : nat -> Z) (l : nat -> R) (d : nat)
    (a b : nat -> Z) :
  K_spec c l d a b =
  prod_upto (fun i => (base (l i) (c i) ^ indicator (a i) (b i))%R) d.
Proof.
  apply prod_upto_ext. intros i _. apply sim_spec_indicator.
Qed.

Lemma kernel22_lengthscale : holds_vector (lengthscale kernel22) 2 ones.
Proof. left. split; [reflexivity|]. intros i _. reflexivity. Qed.

(** C1: for [d >= 1] category counts, a lengthscale vector of [d] entries
    and two-dimensional point batches [x1] ([n1] by [d]) and [x2] ([n2] by
    [d]), [forward] with [diag=False] returns an [n1] by [n2] matrix whose
    entry [(j, k)] is the product over [i < d] of [base_i] raised to the
    indicator of [x1[j, i] != x2[k, i]], where [base_i] is
    [(1 - exp(-l_i * c_i)) / (1 + (c_i - 1) * exp(-l_i * c_i))].  The
    bounds on the entries of [cats], [lengthscale], [x1] and [x2] are not
    needed for this. *)
Theorem C1_full_matrix (self : DiffusionKernel) (x1 x2 : tensor Z)
    (n1 n2 d : nat) (l : nat -> R) :
  (1 <= d)%nat -> length (cats self) = d ->
  holds_vector (lengthscale self) d l ->
  shape x1 = [n1; d] -> shape x2 = [n2; d] ->
  exists t, forward self x1 x2 false false = Ok (Tensor t) /\
    shape t = [n1; n2] /\
    forall j k, (j < n1)%nat -> (k < n2)%nat ->
      data t [j; k] =
      prod_upto (fun i =>
        (((1 - exp (- l i * IZR (cat self i))) /
          (1 + (IZR (cat self i) - 1) * exp (- l i * IZR (cat self i))))
         ^ indicator (data x1 [j; i]) (data x2 [k; i]))%R) d.
Proof.
  intros Hd Hc Hl Hx1 Hx2.
  destruct (forward_full_2d self x1 x2 n1 n2 d d d l Hx1 Hx2 Hl)
    as (v & Hv & Hres); try lia.
  destruct d as [|d]; [lia|]. destruct Hres as (t & -> & Hs & Ht).
  exists t. split; [exact Hv|]. split; [exact Hs|].
  intros j k Hj Hk. rewrite (Ht j k Hj Hk), K_spec_indicator. reflexivity.
Qed.

Lemma C1_full_matrix_witness :
  exists t, forward kernel22 points_abc points_abc false false = Ok (Tensor t) /\
    shape t = [3%nat; 3%nat] /\
    forall j k, (j < 3)%nat -> (k < 3)%nat ->
      data t [j; k] =
      prod_upto (fun i =>
        (((1 - exp (- ones i * IZR (cat kernel22 i))) /
          (1 + (IZR (cat kernel22 i) - 1) * exp (- ones i * IZR (cat kernel22 i))))
         ^ indicator (data points_abc [j; i]) (data points_abc [k; i]))%R) 2.
Proof.
  apply (C1_full_matrix kernel22 points_abc points_abc 3 3 2 ones).
  - lia.
  - reflexivity.
  - exact kernel22_lengthscale.
  - reflexivity.
  - reflexivity.
Defined.

(** C10: when [x1] and [x2] have a trailing dimension [d'] with
    [1 <= d' < len(cats)] and the lengthscale has at least [d'] entries,
    [forward] (first copy, [diag=False]) raises nothing and returns the
    product over the first [d'] dimensions only: the loop is bounded by
    [x1.shape[-1]], and the entries of [cats] from [d'] on are never
    read. *)
Theorem C10_short_trailing_dimension (self : DiffusionKernel)
    (x1 x2 : tensor Z) (n1 n2 d' m : nat) (l : nat -> R) :
  (1 <= d')%nat -> (d' < length (cats self))%nat ->
  holds_vector (lengthscale self) m l -> (d' <= m)%nat ->
  shape x1 = [n1; d'] -> shape x2 = [n2; d'] ->
  exists t, forward self x1 x2 false false = Ok (Tensor t) /\
    shape t = [n1; n2] /\
    forall j k, (j < n1)%nat -> (k < n2)%nat ->
      data t [j; k] =
      prod_upto (fun i =>
        (base (l i) (cat self i)
         ^ indicator (data x1 [j; i]) (data x2 [k; i]))%R) d'.
Proof.
  intros Hd Hc Hl Hm Hx1 Hx2.
  destruct (forward_full_2d self x1 x2 n1 n2 d' d' m l Hx1 Hx2 Hl)
    as (v & Hv & Hres); try lia.
  destruct d' as [|d']; [lia|]. destruct Hres as (t & -> & Hs & Ht).
  exists t. split; [exact Hv|]. split; [exact Hs|].
  intros j k Hj Hk. rewrite (Ht j k Hj Hk). apply K_spec_indicator.
Qed.

Lemma kernel22_row_lengthscale :
  holds_vector (lengthscale kernel22_row) 2 ones.
Proof. right. split; [reflexivity|]. intros i _. reflexivity. Qed.

Lemma C10_short_trailing_dimension_witness :
  exists t, forward kernel22_row (matrix 1 [[0%Z]; [1%Z]]) (matrix 1 [[1%Z]])
              false false = Ok (Tensor t) /\
    shape t = [2%nat; 1%nat] /\
    forall j k, (j < 2)%nat -> (k < 1)%nat ->
      data t [j; k] =
      prod_upto (fun i =>
        (base (ones i) (cat kernel22_row i)
         ^ indicator (data (matrix 1 [[0%Z]; [1%Z]]) [j; i])
                     (data (matrix 1 [[1%Z]]) [k; i]))%R) 1.
Proof.
  apply (C10_short_trailing_dimension kernel22_row _ _ 2 1 1 2 ones).
  - lia.
  - cbn. lia.
  - exact kernel22_row_lengthscale.
  - lia.
  - reflexivity.
  - reflexivity.
Defined.

(** C6, counterexample: in the single precision of the code the factor
    [base] is not strictly between 0 and 1 for every [l > 0] and
    [c >= 2].  At [l = 10], [c = 2] every float32 evaluation gives
    exactly 1 ([exp(-20)] is below half a unit in the last place of 1),
    and at [l = 2^-40], [c = 2], with the correctly rounded exponential,
    it gives exactly 0. *)
Lemma C6_counterexample :
  (exists b, base32 exp32_loose 10 2 b) /\
  (forall b, base32 exp32_loose 10 2 b -> b = 1%R) /\
  (exists b, base32 exp32_nearest (/ 2 ^ 40) 2 b) /\
  (forall b, base32 exp32_nearest (/ 2 ^ 40) 2 b -> b = 0%R).
Proof.
  split; [|split; [|split]].
  - exists 1%R.
    apply (base32_one_intro exp32_loose 10 (1 / 2 ^ 29)).
    + exact is_float32_neg20.
    + exact exp32_loose_neg20_intro.
    + apply (is_float32_inv_pow 1 29); [reflexivity | lia].
    + exact (proj2 (exp32_loose_neg20 _ exp32_loose_neg20_intro)).
  - intros b. apply base32_one.
    + exact is_float32_neg20.
    + exact exp32_loose_neg20.
  - exists 0%R. exact base32_zero_intro.
  - exact base32_zero.
Qed.

(** C6, amended: for [d >= 1], lengthscales [l_i > 0] and category counts
    [c_i >= 2], every factor [base_i] lies between 0 and 1, bounds
    included, and every entry of the matrix returned by [forward] lies in
    the closed interval from 0 to 1. *)
Theorem C6_closed_range (self : DiffusionKernel) (x1 x2 : tensor Z)
    (n1 n2 d : nat) (l : nat -> R) :
  (1 <= d)%nat -> length (cats self) = d ->
  holds_vector (lengthscale self) d l ->
  (forall i, (i < d)%nat -> (0 < l i)%R) ->
  (forall i, (i < d)%nat -> (2 <= cat self i)%Z) ->
  shape x1 = [n1; d] -> shape x2 = [n2; d] ->
  (forall i, (i < d)%nat -> (0 <= base (l i) (cat self i) <= 1)%R) /\
  exists t, forward self x1 x2 false false = Ok (Tensor t) /\
    shape t = [n1; n2] /\
    forall j k, (j < n1)%nat -> (k < n2)%nat ->
      (0 <= data t [j; k] <= 1)%R.
Proof.
  intros Hd Hc Hl Hpos Hcat Hx1 Hx2. split.
  - intros i Hi.
    pose proof (base_bounds (l i) (cat self i) (Hpos i Hi) (Hcat i Hi)).
    lra.
  - destruct (forward_full_2d self x1 x2 n1 n2 d d d l Hx1 Hx2 Hl)
      as (v & Hv & Hres); try lia.
    destruct d as [|d]; [lia|]. destruct Hres as (t & -> & Hs & Ht).
    exists t. split; [exact Hv|]. split; [exact Hs|].
    intros j k Hj Hk. rewrite (Ht j k Hj Hk).
    pose proof (K_spec_bounds (cat self) l (S d) (point x1 j) (point x2 k)
                  Hpos Hcat).
    lra.
Qed.

Lemma ones_pos (i : nat) : (i < 2)%nat -> (0 < ones i)%R.
Proof.
  intros H. destruct i as [|[|i]]; cbn; try lra. lia.
Qed.

Lemma kernel22_cats (i : nat) : (i < 2)%nat -> (2 <= cat kernel22 i)%Z.
Proof.
  intros H. destruct i as [|[|i]]; cbn; lia.
Qed.

Lemma C6_closed_range_witness :
  (forall i, (i < 2)%nat -> (0 <= base (ones i) (cat kernel22 i) <= 1)%R) /\
  exists t, forward kernel22 points_abc points_abc false false = Ok (Tensor t) /\
    shape t = [3%nat; 3%nat] /\
    forall j k, (j < 3)%nat -> (k < 3)%nat ->
      (0 <= data t [j; k] <= 1)%R.
Proof.
  apply (C6_closed_range kernel22 points_abc points_abc 3 3 2 ones).
  - lia.
  - reflexivity.
  - exact kernel22_lengthscale.
  - exact ones_pos.
  - exact kernel22_cats.
  - reflexivity.
  - reflexivity.
Defined.

(** ** The concrete scenario *)

Lemma approx_within_intro (tol x v lo hi : R) :
  (lo < x < hi)%R -> (v - tol <= lo)%R -> (hi <= v + tol)%R ->
  approx_within tol x v.
Proof.
  intros Hx Hlo Hhi. unfold approx_within. apply Rabs_le. lra.
Qed.

(** The entries of the kernel matrix of the three points. *)
Lemma forward_points_abc :
  exists t, forward kernel22 points_abc points_abc false false = Ok (Tensor t) /\
    shape t = [3%nat; 3%nat] /\
    data t [0%nat; 0%nat] = 1%R /\
    data t [0%nat; 1%nat] = base 1 2 /\
    data t [0%nat; 2%nat] = (base 1 2 * base 1 2)%R.
Proof.
  destruct (forward_full_2d kernel22 points_abc points_abc 3 3 2 2 2 ones)
    as (v & Hv & t & -> & Hs & Ht);
    try reflexivity; try exact kernel22_lengthscale; try (cbn; lia).
  exists t. split; [exact Hv|]. split; [exact Hs|].
  rewrite !Ht by lia.
  unfold K_spec, sim_spec, point, cat, ones. cbn.
  repeat split; lra.
Qed.

(** C3, counterexample: with [cats = [2, 2]] and [lengthscale = [1, 1]]
    the decay [(1 - e^-2) / (1 + e^-2)] is not 0.4621, not even up to
    0.25, and neither is the kernel of [a = [0, 0]] and [b = [0, 1]]. *)
Lemma C3_counterexample :
  ~ approx_within (1 / 4) (base 1 2) (4621 / 10000) /\
  ~ (exists t,
       forward kernel22 points_abc points_abc false false = Ok (Tensor t) /\
       approx_within (1 / 4) (data t [0%nat; 1%nat]) (4621 / 10000)).
Proof.
  assert (H : ~ approx_within (1 / 4) (base 1 2) (4621 / 10000)).
  { unfold approx_within. intros H.
    pose proof base_1_2_bounds as Hb.
    pose proof (Rle_abs (base 1 2 - 4621 / 10000)). lra. }
  split; [exact H|].
  intros (t & Ht & Ha).
  destruct forward_points_abc as (t' & Ht' & _ & _ & Hab & _).
  rewrite Ht in Ht'. injection Ht' as ->.
  rewrite Hab in Ha. exact (H Ha).
Qed.

(** C3, amended: with [cats = [2, 2]] and [lengthscale = [1, 1]] the
    decay is [base = (1 - e^-2) / (1 + 1 * e^-2)], which is 0.7616 to four
    decimals; for [a = [0, 0]], [b = [0, 1]], [c = [1, 1]] the kernel gives
    [K(a, a) = 1], [K(a, b) = base], about 0.7616, and [K(a, c) = base^2],
    about 0.5800. *)
Theorem C3_scenario :
  base 1 2 = ((1 - exp (-2)) / (1 + 1 * exp (-2)))%R /\
  approx_within (5 / 100000) (base 1 2) (7616 / 10000) /\
  exists t,
    forward kernel22 points_abc points_abc false false = Ok (Tensor t) /\
    data t [0%nat; 0%nat] = 1%R /\
    data t [0%nat; 1%nat] = base 1 2 /\
    approx_within (5 / 100000) (data t [0%nat; 1%nat]) (7616 / 10000) /\
    data t [0%nat; 2%nat] = (base 1 2 ^ 2)%R /\
    approx_within (5 / 100000) (data t [0%nat; 2%nat]) (5800 / 10000).
Proof.
  pose proof base_1_2_bounds as Hb.
  assert (Hbase : approx_within (5 / 100000) (base 1 2) (7616 / 10000)).
  { apply (approx_within_intro _ _ _ _ _ Hb); lra. }
  split; [rewrite base_1_2; f_equal; lra|].
  split; [exact Hbase|].
  destruct forward_points_abc as (t & Ht & _ & Haa & Hab & Hac).
  exists t. rewrite Haa, Hab, Hac.
  repeat split; try assumption; try lra.
  apply (approx_within_intro _ _ _ (57999 / 100000) (58005 / 100000)); nra.
Qed.

(** ** Monotonicity in one lengthscale *)






(** ** Exceptions raised by [forward] *)

Lemma wrap_dim_last (n : nat) : wrap_dim (-1) (S n) = Ok n.
Proof.
  unfold wrap_dim. change (-1 <? 0)%Z with true. cbn iota.
  replace (-1 + Z.of_nat (S n))%Z with (Z.of_nat n) by lia.
  destruct (Z.leb_spec 0 (Z.of_nat n)); [|lia].
  destruct (Z.ltb_spec (Z.of_nat n) (Z.of_nat (S n))); [|lia].
  cbn. now rewrite Nat2Z.id.
Qed.

Lemma wrap_dim_raise (dim : Z) (n : nat) (e : exn) :
  wrap_dim dim n = Raise e -> e = IndexError.
Proof.
  unfold wrap_dim.
  destruct (_ && _); intros H; [discriminate | now injection H].
Qed.

Lemma select_raise {A : Type} (dim : Z) (i : nat) (t : tensor A) (e : exn) :
  select dim i t = Raise e -> e = IndexError.
Proof.
  unfold select. destruct (wrap_dim dim (ndim t)) as [p|e'] eqn:Hp; cbn [bind].
  - destruct (i <? nth p (shape t) 0)%nat; intros H;
      [discriminate | now injection H].
  - intros H. injection H as <-. exact (wrap_dim_raise _ _ _ Hp).
Qed.

Lemma list_index_raise {A : Type} (l : list A) (i : nat) (e : exn) :
  list_index l i = Raise e -> e = IndexError /\ (length l <= i)%nat.
Proof.
  unfold list_index. destruct (nth_error l i) eqn:E; intros H;
    [discriminate|].
  injection H as <-. split; [reflexivity | now apply nth_error_None].
Qed.

Lemma base_tensor_raise (self : DiffusionKernel) (i : nat) (e : exn) :
  base_tensor self i = Raise e -> e = IndexError.
Proof.
  unfold base_tensor.
  destruct (select (-1) i (lengthscale self)) as [b|e'] eqn:Hs; cbn [bind].
  - destruct (list_index (cats self) i) as [c|e'] eqn:Hc; cbn [bind]; intros H;
      [discriminate|].
    injection H as <-. exact (proj1 (list_index_raise _ _ _ Hc)).
  - intros H. injection H as <-. exact (select_raise _ _ _ _ Hs).
Qed.

Lemma base_tensor_ok (self : DiffusionKernel) (m : nat) (l : nat -> R)
    (i : nat) :
  holds_vector (lengthscale self) m l ->
  (i < m)%nat -> (i < length (cats self))%nat ->
  exists b, base_tensor self i = Ok b.
Proof.
  destruct self as [cs [sl g]]. cbn [lengthscale cats].
  intros Hl Hm Hc. unfold base_tensor. cbn [lengthscale cats].
  pose proof (list_index_cat {| cats := cs; lengthscale := mkT sl g |} i Hc)
    as Hi. cbn [cats] in Hi.
  destruct Hl as [[Hs _] | [Hs _]]; cbn [shape] in Hs; subst sl;
    teval; rewrite (ltb_true _ _ Hm), Hi; teval; eexists; reflexivity.
Qed.

Lemma unsqueeze_last_ok {A : Type} (t : tensor A) :
  exists u, unsqueeze (-1) t = Ok u.
Proof.
  unfold unsqueeze. rewrite wrap_dim_last. cbn. eexists; reflexivity.
Qed.

(** [t[..., i]] for a shape with a named last dimension. *)
Lemma select_last {A : Type} (t : tensor A) (s : list nat) (d i : nat) :
  shape t = s ++ [d] ->
  select (-1) i t =
  if (i <? d)%nat
  then Ok (mkT s (fun idx => data t (insert_at (length s) i idx)))
  else Raise IndexError.
Proof.
  intros H. unfold select, ndim. rewrite H, length_app. cbn [length].
  rewrite Nat.add_1_r, wrap_dim_last. cbn [bind].
  rewrite nth_middle.
  replace (remove_at (length s) (s ++ [d])) with s; [reflexivity|].
  unfold remove_at.
  rewrite firstn_app, firstn_all, Nat.sub_diag. cbn [firstn].
  rewrite skipn_all2 by (rewrite length_app; cbn; lia).
  now rewrite !app_nil_r.
Qed.

(** The first round of a loop that raises decides the loop. *)
Lemma for_range_raise_first {A : Type} (n : nat)
    (body : nat -> A -> result A) (acc : A) (e : exn) :
  (1 <= n)%nat -> body 0%nat acc = Raise e ->
  for_range n body acc = Raise e.
Proof.
  intros Hn H. destruct n as [|n]; [lia|].
  unfold for_range. cbn [seq for_each]. now rewrite H.
Qed.

(** On two-dimensional batches of equal shape the factor of the [diag]
    branch cannot be computed: the comparison has one dimension and
    [[:, 0, ...]] indexes two. *)
Lemma diag_factor_2d (self : DiffusionKernel) (x1 x2 : tensor Z)
    (n d i : nat) :
  shape x1 = [n; d] -> shape x2 = [n; d] ->
  diag_factor self x1 x2 i = Raise IndexError.
Proof.
  intros H1 H2. unfold diag_factor.
  destruct (base_tensor self i) as [b|e] eqn:Hb; cbn [bind].
  2:{ now rewrite (base_tensor_raise _ _ _ Hb). }
  destruct (unsqueeze_last_ok b) as [b' ->]. cbn [bind].
  rewrite (select_last x1 [n] d i H1), (select_last x2 [n] d i H2).
  destruct (i <? d)%nat; cbn [bind]; [|reflexivity].
  teval. reflexivity.
Qed.

Lemma forward_diag_2d (self : DiffusionKernel) (x1 x2 : tensor Z)
    (n d : nat) :
  shape x1 = [n; d] -> shape x2 = [n; d] -> (1 <= d)%nat ->
  forward self x1 x2 true false = Raise IndexError.
Proof.
  intros H1 H2 Hd. unfold forward, forward_on. cbn [bind].
  unfold size, ndim. rewrite H1. cbn [length]. eval_wrap. cbn [bind nth].
  apply for_range_raise_first; [exact Hd|].
  now rewrite (diag_factor_2d self x1 x2 n d 0 H1 H2).
Qed.

(** C2: diagonal mode, [forward(x1, x2, diag=True)[k] =
    forward(x1, x2, diag=False)[k, k]], does not hold on the code: for two
    batches of [n] points over [d = len(cats) >= 1] dimensions the full
    branch returns the [n] by [n] matrix, and the [diag] branch raises
    [IndexError] instead of returning its diagonal. *)
Theorem C2_diag_mode_raises (self : DiffusionKernel) (x1 x2 : tensor Z)
    (n d : nat) (l : nat -> R) :
  (1 <= d)%nat -> length (cats self) = d ->
  holds_vector (lengthscale self) d l ->
  shape x1 = [n; d] -> shape x2 = [n; d] ->
  (exists t, forward self x1 x2 false false = Ok (Tensor t) /\
             shape t = [n; n]) /\
  forward self x1 x2 true false = Raise IndexError.
Proof.
  intros Hd Hc Hl H1 H2. split.
  - destruct (forward_full_2d self x1 x2 n n d d d l H1 H2 Hl)
      as (v & Hv & Hres); try lia.
    destruct d as [|d]; [lia|]. destruct Hres as (t & -> & Hs & _).
    exists t. split; assumption.
  - exact (forward_diag_2d self x1 x2 n d H1 H2 Hd).
Qed.

Lemma C2_diag_mode_raises_witness :
  (exists t, forward kernel22 points_abc points_abc false false = Ok (Tensor t) /\
             shape t = [3%nat; 3%nat]) /\
  forward kernel22 points_abc points_abc true false = Raise IndexError.
Proof.
  apply (C2_diag_mode_raises kernel22 points_abc points_abc 3 2 ones).
  - lia.
  - reflexivity.
  - exact kernel22_lengthscale.
  - reflexivity.
  - reflexivity.
Defined.

(** C8: constructing the kernel with [categories=None] raises at
    construction, so no kernel object exists to evaluate; the exception
    is the [NameError] for the unbound name [RunTimeError], not the
    configuration error that the [raise] statement spells out. *)
Theorem C8_init_without_categories (init_lengthscale : tensor R) :
  __init__ None init_lengthscale = Raise (NameError "RunTimeError") /\
  __init__ None init_lengthscale <> Raise RuntimeError /\
  forall self, __init__ None init_lengthscale <> Ok self.
Proof.
  repeat split; cbn; intros; discriminate.
Qed.

(** ** Trailing dimensions that disagree with [len(cats)] *)

(** In the full branch on two-dimensional batches, a dimension [i] that
    the lengthscale, [cats] or [x2] does not have raises [IndexError]. *)
Lemma full_factor_2d_raise (self : DiffusionKernel) (x1 x2 : tensor Z)
    (n1 n2 d1 d2 m : nat) (l : nat -> R) (i : nat) :
  shape x1 = [n1; d1] -> shape x2 = [n2; d2] ->
  holds_vector (lengthscale self) m l ->
  (i < d1)%nat ->
  (m <= i \/ length (cats self) <= i \/ d2 <= i)%nat ->
  full_factor self x1 x2 i = Raise IndexError.
Proof.
  intros H1 H2 Hl Hi Hout. unfold full_factor.
  destruct (base_tensor self i) as [b|e] eqn:Hb; cbn [bind].
  2:{ now rewrite (base_tensor_raise _ _ _ Hb). }
  destruct (unsqueeze_last_ok b) as [b' ->]. cbn [bind].
  rewrite (select_last x1 [n1] d1 i H1), (ltb_true _ _ Hi).
  rewrite (select_last x2 [n2] d2 i H2).
  destruct (Nat.ltb_spec i d2) as [Hd2|Hd2]; [|teval; reflexivity].
  exfalso.
  unfold base_tensor in Hb.
  destruct Hl as [[Hs _] | [Hs _]].
  - rewrite (select_last (lengthscale self) [] m i Hs) in Hb.
    destruct (Nat.ltb_spec i m) as [Hm|Hm]; cbn [bind] in Hb;
      [|discriminate].
    destruct (list_index (cats self) i) as [c|e] eqn:Hc; cbn [bind] in Hb;
      [|discriminate].
    unfold list_index in Hc.
    destruct (nth_error (cats self) i) eqn:E; [|discriminate].
    assert (i < length (cats self))%nat
      by (apply nth_error_Some; congruence).
    lia.
  - rewrite (select_last (lengthscale self) [1%nat] m i Hs) in Hb.
    destruct (Nat.ltb_spec i m) as [Hm|Hm]; cbn [bind] in Hb;
      [|discriminate].
    destruct (list_index (cats self) i) as [c|e] eqn:Hc; cbn [bind] in Hb;
      [|discriminate].
    unfold list_index in Hc.
    destruct (nth_error (cats self) i) eqn:E; [|discriminate].
    assert (i < length (cats self))%nat
      by (apply nth_error_Some; congruence).
    lia.
Qed.

Lemma for_range_split {A : Type} (n k : nat) (body : nat -> A -> result A)
    (acc : A) :
  for_range (n + S k) body acc =
  (a <- for_range n body acc ;;
   a' <- body n a ;;
   for_each body (seq (S n) k) a').
Proof.
  unfold for_range. rewrite seq_app, for_each_app. cbn [Nat.add seq for_each].
  reflexivity.
Qed.

Lemma forward_full_2d_raise (self : DiffusionKernel) (x1 x2 : tensor Z)
    (n1 n2 d1 d2 m : nat) (l : nat -> R) :
  shape x1 = [n1; d1] -> shape x2 = [n2; d2] ->
  holds_vector (lengthscale self) m l ->
  (length (cats self) < d1)%nat ->
  forward self x1 x2 false false = Raise IndexError.
Proof.
  intros H1 H2 Hl Hc.
  unfold forward, forward_on. cbn [bind].
  unfold size, ndim. rewrite H1. cbn [length]. eval_wrap. cbn [bind nth].
  set (n0 := Nat.min m (Nat.min (length (cats self)) d2)).
  replace d1 with (n0 + S (d1 - S n0))%nat by lia.
  rewrite for_range_split.
  destruct (full_loop_2d self x1 x2 n1 n2 d1 d2 m l n0 H1 H2 Hl)
    as (v & -> & _); try lia.
  cbn [bind].
  rewrite (full_factor_2d_raise self x1 x2 n1 n2 d1 d2 m l n0 H1 H2 Hl);
    [reflexivity | lia | lia].
Qed.

(** In the [diag] branch, batches with [n1] and [n2] points, different and
    both other than 1, cannot be compared. *)
Lemma diag_factor_unequal (self : DiffusionKernel) (x1 x2 : tensor Z)
    (bs : list nat) (n1 n2 d i : nat) (b : tensor R) :
  base_tensor self i = Ok b ->
  shape x1 = bs ++ [n1; d] -> shape x2 = bs ++ [n2; d] ->
  (i < d)%nat -> n1 <> n2 -> n1 <> 1%nat -> n2 <> 1%nat ->
  diag_factor self x1 x2 i = Raise RuntimeError.
Proof.
  intros Hb H1 H2 Hi Hne Hn1 Hn2. unfold diag_factor.
  rewrite Hb. cbn [bind].
  destruct (unsqueeze_last_ok b) as [b' ->]. cbn [bind].
  rewrite (select_last x1 (bs ++ [n1]) d i)
    by (rewrite H1, <- app_assoc; reflexivity).
  rewrite (select_last x2 (bs ++ [n2]) d i)
    by (rewrite H2, <- app_assoc; reflexivity).
  rewrite (ltb_true _ _ Hi). cbn [bind].
  unfold ne, zip_with, broadcast_shapes. cbn [shape].
  rewrite !rev_app_distr. cbn [rev app broadcast_rev].
  unfold broadcast_dim.
  destruct (Nat.eqb_spec n1 n2); [contradiction|].
  destruct (Nat.eqb_spec n1 1); [contradiction|].
  destruct (Nat.eqb_spec n2 1); [contradiction|].
  reflexivity.
Qed.

(** C7, counterexample: with [cats] of length 2, batches of trailing
    dimension 1 are evaluated without any exception, and so is a [diag]
    call with [n1 = 1] and [n2 = 3] points. *)
Lemma C7_counterexample :
  length (cats kernel22) = 2%nat /\
  shape (matrix 1 [[0%Z]; [1%Z]]) = [2%nat; 1%nat] /\
  (exists v, forward kernel22 (matrix 1 [[0%Z]; [1%Z]]) (matrix 1 [[1%Z]])
               false false = Ok v) /\
  (exists v, forward kernel22
               (batch 1 2 [[[0%Z; 0%Z]]])
               (batch 3 2 [[[0%Z; 0%Z]; [0%Z; 1%Z]; [1%Z; 1%Z]]])
               true false = Ok v).
Proof.
  split; [reflexivity|]. split; [reflexivity|]. split.
  - destruct (forward_full_2d kernel22 (matrix 1 [[0%Z]; [1%Z]])
                (matrix 1 [[1%Z]]) 2 1 1 1 2 ones)
      as (v & Hv & _);
      try reflexivity; try exact kernel22_lengthscale; try (cbn; lia).
    exists v. exact Hv.
  - unfold forward, forward_on, kernel22, batch, vector, for_range,
      diag_factor, base_tensor, imul, list_index.
    cbn [bind lengthscale cats length seq for_each nth_error].
    teval. cbn [seq for_each bind]. teval.
    eexists; reflexivity.
Qed.

(** In the [diag] branch nothing is computed when the lengthscale or
    [cats] has no first entry. *)
Lemma base_tensor_empty (self : DiffusionKernel) (m : nat) (l : nat -> R) :
  holds_vector (lengthscale self) m l ->
  m = 0%nat \/ length (cats self) = 0%nat ->
  base_tensor self 0 = Raise IndexError.
Proof.
  intros Hl Hz.
  destruct (base_tensor self 0) as [b|e] eqn:Hb;
    [|now rewrite (base_tensor_raise _ _ _ Hb)].
  exfalso. unfold base_tensor in Hb.
  assert (Hsel : select (-1) 0 (lengthscale self) =
                 if (0 <? m)%nat
                 then Ok (mkT (removelast (shape (lengthscale self)))
                              (fun idx => data (lengthscale self)
                                 (insert_at
                                    (length (removelast
                                       (shape (lengthscale self)))) 0%nat idx)))
                 else Raise IndexError).
  { destruct Hl as [[Hs _] | [Hs _]]; rewrite Hs.
    - exact (select_last (lengthscale self) [] m 0 Hs).
    - exact (select_last (lengthscale self) [1%nat] m 0 Hs). }
  rewrite Hsel in Hb.
  destruct (Nat.ltb_spec 0 m) as [Hm|Hm]; cbn [bind] in Hb; [|discriminate].
  destruct (list_index (cats self) 0) as [c|e] eqn:Hc; cbn [bind] in Hb;
    [|discriminate].
  unfold list_index in Hc.
  destruct (cats self); [discriminate | cbn in Hz; lia].
Qed.

(** C7, amended: [forward] has no check of its own on the shapes.  With
    [diag=False], a lengthscale vector and two-dimensional batches it
    raises [IndexError] whenever the last dimension of [x1] is larger
    than [len(cats)] (for example 3 against 2).  With [diag=True], a
    lengthscale vector and batches of shapes [[..., n1, d]] and
    [[..., n2, d]] with the same leading dimensions and [d >= 1] columns,
    it fails whenever [n1 != n2] and neither is 1: with the broadcasting
    [RuntimeError] when the lengthscale and [cats] have at least one
    entry each, with [IndexError] when one of them is empty. *)
Theorem C7_shape_errors (self : DiffusionKernel) (m : nat) (l : nat -> R)
    (x1 x2 : tensor Z) (n1 n2 d1 d2 : nat)
    (y1 y2 : tensor Z) (bs : list nat) (k1 k2 d : nat) :
  holds_vector (lengthscale self) m l ->
  shape x1 = [n1; d1] -> shape x2 = [n2; d2] ->
  (length (cats self) < d1)%nat ->
  shape y1 = bs ++ [k1; d] -> shape y2 = bs ++ [k2; d] ->
  (1 <= d)%nat ->
  k1 <> k2 -> k1 <> 1%nat -> k2 <> 1%nat ->
  forward self x1 x2 false false = Raise IndexError /\
  ((1 <= m)%nat /\ (1 <= length (cats self))%nat ->
   forward self y1 y2 true false = Raise RuntimeError) /\
  (m = 0%nat \/ length (cats self) = 0%nat ->
   forward self y1 y2 true false = Raise IndexError).
Proof.
  intros Hl Hx1 Hx2 Hc Hy1 Hy2 Hd Hk Hk1 Hk2.
  assert (Hsize : size y1 (-1) = Ok d).
  { unfold size, ndim. rewrite Hy1, length_app. cbn [length].
    replace (length bs + 2)%nat with (S (S (length bs))) by lia.
    rewrite wrap_dim_last. cbn [bind].
    replace (bs ++ [k1; d]) with ((bs ++ [k1]) ++ [d])
      by (rewrite <- app_assoc; reflexivity).
    replace (S (length bs)) with (length (bs ++ [k1]))
      by (rewrite length_app; cbn; lia).
    now rewrite nth_middle. }
  split; [|split].
  - exact (forward_full_2d_raise self x1 x2 n1 n2 d1 d2 m l Hx1 Hx2 Hl Hc).
  - intros [Hm Hcats].
    unfold forward, forward_on. cbn [bind]. rewrite Hsize. cbn [bind].
    apply for_range_raise_first; [exact Hd|].
    destruct (base_tensor_ok self m l 0 Hl) as [b Hb]; try lia.
    rewrite (diag_factor_unequal self y1 y2 bs k1 k2 d 0 b); auto; lia.
  - intros Hz.
    unfold forward, forward_on. cbn [bind]. rewrite Hsize. cbn [bind].
    apply for_range_raise_first; [exact Hd|].
    unfold diag_factor. rewrite (base_tensor_empty self m l Hl Hz).
    reflexivity.
Qed.

Lemma kernel_no_cats_lengthscale :
  holds_vector (lengthscale kernel_no_cats) 2 ones.
Proof. left. split; [reflexivity|]. intros i _. reflexivity. Qed.

Lemma C7_shape_errors_witness :
  forward kernel22 (matrix 3 [[0%Z; 0%Z; 0%Z]]) (matrix 3 [[0%Z; 0%Z; 0%Z]])
          false false = Raise IndexError /\
  forward kernel22
          (batch 2 2 [[[0%Z; 0%Z]; [0%Z; 1%Z]]])
          (batch 3 2 [[[0%Z; 0%Z]; [0%Z; 1%Z]; [1%Z; 1%Z]]])
          true false = Raise RuntimeError /\
  forward kernel_no_cats
          (batch 2 2 [[[0%Z; 0%Z]; [0%Z; 1%Z]]])
          (batch 3 2 [[[0%Z; 0%Z]; [0%Z; 1%Z]; [1%Z; 1%Z]]])
          true false = Raise IndexError.
Proof.
  pose proof (C7_shape_errors kernel22 2 ones
           (matrix 3 [[0%Z; 0%Z; 0%Z]]) (matrix 3 [[0%Z; 0%Z; 0%Z]]) 1 1 3 3
           (batch 2 2 [[[0%Z; 0%Z]; [0%Z; 1%Z]]])
           (batch 3 2 [[[0%Z; 0%Z]; [0%Z; 1%Z]; [1%Z; 1%Z]]])
           [1%nat] 2 3 2 kernel22_lengthscale eq_refl eq_refl
           ltac:(cbn; lia) eq_refl eq_refl
           ltac:(lia) ltac:(lia) ltac:(lia) ltac:(lia)) as (H1 & H2 & _).
  pose proof (C7_shape_errors kernel_no_cats 2 ones
           (matrix 3 [[0%Z; 0%Z; 0%Z]]) (matrix 3 [[0%Z; 0%Z; 0%Z]]) 1 1 3 3
           (batch 2 2 [[[0%Z; 0%Z]; [0%Z; 1%Z]]])
           (batch 3 2 [[[0%Z; 0%Z]; [0%Z; 1%Z]; [1%Z; 1%Z]]])
           [1%nat] 2 3 2 kernel_no_cats_lengthscale eq_refl eq_refl
           ltac:(cbn; lia) eq_refl eq_refl
           ltac:(lia) ltac:(lia) ltac:(lia) ltac:(lia)) as (_ & _ & H3).
  split; [exact H1|]. split.
  - apply H2. cbn. lia.
  - apply H3. right. reflexivity.
Defined.

(** ** Outputs that agree entry by entry *)

Lemma tensor_eq_refl {A : Type} (t : tensor A) : tensor_eq t t.
Proof. split; [reflexivity | intros; reflexivity]. Qed.

Lemma value_eq_refl (v : value) : value_eq v v.
Proof. destruct v; cbn; [reflexivity | apply tensor_eq_refl]. Qed.

Lemma same_outcome_bind {A B : Type} (R : A -> A -> Prop)
    (S : B -> B -> Prop) (m n : result A) (f g : A -> result B) :
  same_outcome R m n ->
  (forall a b, R a b -> same_outcome S (f a) (g b)) ->
  same_outcome S (bind m f) (bind n g).
Proof.
  destruct m, n; cbn; intros H Hf; try contradiction; auto.
Qed.

Lemma in_range_snoc (s idx : list nat) (n i : nat) :
  in_range s idx -> (i < n)%nat -> in_range (s ++ [n]) (idx ++ [i]).
Proof.
  revert idx. induction s as [|a s IH]; intros [|j idx]; cbn;
    try contradiction; intros H Hi.
  - split; [exact Hi | exact I].
  - destruct H as [Hj H]. split; [exact Hj | now apply IH].
Qed.

Lemma in_range_rev (s idx : list nat) :
  in_range s idx -> in_range (rev s) (rev idx).
Proof.
  revert idx. induction s as [|a s IH]; intros [|j idx]; cbn;
    try contradiction; intros H; [exact I|].
  destruct H as [Hj H]. apply in_range_snoc; auto.
Qed.

(** Aligned at the first element, an index in range for the broadcast
    of two reversed shapes is read in range in the second. *)
Lemma broadcast_rev_in_range (r1 r2 r ridx : list nat) :
  broadcast_rev r1 r2 = Ok r -> in_range r ridx ->
  in_range r2 (map (fun ni => if (fst ni =? 1)%nat then 0%nat else snd ni)
                   (combine r2 ridx)).
Proof.
  revert r2 r ridx.
  induction r1 as [|a r1 IH]; intros r2 r ridx Hb Hin.
  - cbn in Hb. injection Hb as <-.
    revert ridx Hin. induction r2 as [|b r2 IH2]; intros [|j ridx]; cbn;
      try contradiction; auto.
    intros [Hj Hin]. split; [|now apply IH2].
    destruct (Nat.eqb_spec b 1); lia.
  - destruct r2 as [|b r2]; [exact I|].
    cbn in Hb.
    destruct (broadcast_dim a b) as [n|] eqn:Hd; cbn in Hb; [|discriminate].
    destruct (broadcast_rev r1 r2) as [r'|] eqn:Hr; cbn in Hb;
      [|discriminate].
    injection Hb as <-.
    destruct ridx as [|j ridx]; cbn in Hin; [contradiction|].
    destruct Hin as [Hj Hin]. cbn. split; [|exact (IH r2 r' ridx Hr Hin)].
    unfold broadcast_dim in Hd.
    destruct (Nat.eqb_spec b 1); [lia|].
    destruct (Nat.eqb_spec a b); [injection Hd as <-; lia|].
    destruct (Nat.eqb_spec a 1); [injection Hd as <-; lia|].
    discriminate.
Qed.

Lemma broadcast_index_in_range (s1 s2 s idx : list nat) :
  broadcast_shapes s1 s2 = Ok s -> in_range s idx ->
  in_range s2 (broadcast_index s2 idx).
Proof.
  unfold broadcast_shapes, broadcast_index. intros Hb Hin.
  destruct (broadcast_rev (rev s1) (rev s2)) as [r|] eqn:Hr; cbn in Hb;
    [|discriminate].
  injection Hb as <-.
  apply in_range_rev in Hin. rewrite rev_involutive in Hin.
  rewrite <- (rev_involutive s2) at 1.
  apply in_range_rev.
  exact (broadcast_rev_in_range _ _ _ _ Hr Hin).
Qed.

(** [t ** e] and [res *= f] only read their second argument in range. *)
Lemma pow_bool_eq (b : tensor R) (e e' : tensor bool) :
  tensor_eq e e' ->
  same_outcome tensor_eq (pow_bool b e) (pow_bool b e').
Proof.
  intros [Hs He]. unfold pow_bool, zip_with. rewrite <- Hs.
  destruct (broadcast_shapes (shape b) (shape e)) as [s|] eqn:Hb; cbn;
    [|reflexivity].
  split; [reflexivity|]. cbn. intros idx Hin.
  now rewrite (He _ (broadcast_index_in_range _ _ _ _ Hb Hin)).
Qed.

Lemma imul_eq (v v' : value) (f f' : tensor R) :
  value_eq v v' -> tensor_eq f f' ->
  same_outcome value_eq (imul v f) (imul v' f').
Proof.
  intros Hv [Hs Hf].
  destruct v as [r|u], v' as [r'|u']; cbn in Hv; try contradiction.
  - subst r'. cbn. split; [exact Hs|]. cbn. intros idx Hin.
    now rewrite (Hf idx Hin).
  - destruct Hv as [Hsu Hu]. cbn [imul]. unfold mul_.
    rewrite <- Hs, <- Hsu.
    destruct (broadcast_shapes (shape u) (shape f)) as [s|] eqn:Hb;
      cbn [bind same_outcome]; [|reflexivity].
    destruct (shape_eqb s (shape u)) eqn:Heq; cbn; [|reflexivity].
    split; [reflexivity|]. cbn. intros idx Hin.
    rewrite (Hu idx Hin). f_equal. apply Hf.
    apply (broadcast_index_in_range _ _ _ _ Hb).
    unfold shape_eqb in Heq.
    destruct (list_eq_dec Nat.eq_dec s (shape u)); [now subst | discriminate].
Qed.

Lemma for_each_eq (body body' : nat -> value -> result value)
    (l : list nat) (v v' : value) :
  (forall i a a', value_eq a a' ->
     same_outcome value_eq (body i a) (body' i a')) ->
  value_eq v v' ->
  same_outcome value_eq (for_each body l v) (for_each body' l v').
Proof.
  intros Hbody. revert v v'.
  induction l as [|i l IH]; intros v v' Hv; cbn [for_each]; [exact Hv|].
  apply (same_outcome_bind value_eq); auto.
Qed.

(** ** The full branch on batched inputs *)

Lemma full_factor_exponent (self : DiffusionKernel) (x1 x2 : tensor Z)
    (i : nat) :
  full_factor self x1 x2 i =
  (b <- base_tensor self i ;;
   b <- unsqueeze (-1) b ;;
   e <- full_exponent x1 x2 i ;;
   pow_bool b e).
Proof.
  unfold full_factor, full_exponent.
  destruct (base_tensor self i) as [b|]; cbn [bind]; [|reflexivity].
  destruct (unsqueeze (-1) b) as [b'|]; cbn [bind]; [|reflexivity].
  destruct (select (-1) i x1) as [a|]; cbn [bind]; [|reflexivity].
  destruct (unsqueeze (-2) a) as [a'|]; cbn [bind]; [|reflexivity].
  destruct (unsqueeze (-1) a') as [a1|]; cbn [bind]; [|reflexivity].
  destruct (select (-1) i x2) as [c|]; cbn [bind]; [|reflexivity].
  destruct (unsqueeze (-2) c) as [a2|]; cbn [bind]; [|reflexivity].
  destruct (ne a1 a2) as [e|]; cbn [bind]; [|reflexivity].
  destruct (select 0 0 e); reflexivity.
Qed.

Lemma in_range_3 (a b c : nat) (idx : list nat) :
  in_range [a; b; c] idx ->
  exists q j k, idx = [q; j; k] /\ (q < a)%nat /\ (j < b)%nat /\ (k < c)%nat.
Proof.
  destruct idx as [|q [|j [|k [|? ?]]]]; cbn; try tauto.
  intros (Hq & Hj & Hk & _). exists q, j, k. auto.
Qed.

(** For three-dimensional [x1] and [x2] the comparison has the shape
    [[b; b2; n1; n2]], with the batch dimension of [x1] in front, and
    [[0, ...]] keeps the entries of the first batch slice of [x1]. *)
Lemma full_exponent_3d (x1 x2 : tensor Z) (b n1 d1 b2 n2 d2 i : nat) :
  shape x1 = [b; n1; d1] -> shape x2 = [b2; n2; d2] ->
  (i < d1)%nat -> (i < d2)%nat -> (1 <= b)%nat ->
  exists e, full_exponent x1 x2 i = Ok e /\ shape e = [b2; n1; n2] /\
    forall q j k, (q < b2)%nat -> (j < n1)%nat -> (k < n2)%nat ->
      data e [q; j; k] =
      negb (data x1 [0%nat; j; i] =? data x2 [q; k; i])%Z.
Proof.
  destruct x1 as [s1 f1], x2 as [s2 f2]. cbn [shape data].
  intros -> -> H1 H2 Hb. unfold full_exponent.
  teval. rewrite (ltb_true _ _ H1), (ltb_true _ _ H2). teval.
  rewrite (ltb_true 0 b) by lia. teval.
  eexists; split; [reflexivity|]. split; [reflexivity|].
  intros q j k Hq Hj Hk. tread. destruct (b =? 1)%nat; reflexivity.
Qed.

Lemma full_exponent_3d_raise (x1 x2 : tensor Z)
    (b n1 d1 b2 n2 d2 i : nat) :
  shape x1 = [b; n1; d1] -> shape x2 = [b2; n2; d2] ->
  (d1 <= i \/ d2 <= i \/ b = 0)%nat ->
  full_exponent x1 x2 i = Raise IndexError.
Proof.
  destruct x1 as [s1 f1], x2 as [s2 f2]. cbn [shape data].
  intros -> -> H. unfold full_exponent. teval.
  destruct (Nat.ltb_spec i d1); [|reflexivity]. teval.
  destruct (Nat.ltb_spec i d2); [|reflexivity]. teval.
  destruct (Nat.ltb_spec 0 b); [lia | reflexivity].
Qed.

(** Two batches with the same first slice give the same exponent. *)
Lemma full_exponent_eq (x1 x1' x2 : tensor Z) (b n1 d b2 n2 d2 i : nat) :
  shape x1 = [b; n1; d] -> shape x1' = [b; n1; d] ->
  shape x2 = [b2; n2; d2] ->
  (forall j k, (j < n1)%nat -> (k < d)%nat ->
     data x1 [0%nat; j; k] = data x1' [0%nat; j; k]) ->
  same_outcome tensor_eq (full_exponent x1 x2 i) (full_exponent x1' x2 i).
Proof.
  intros H1 H1' H2 Hagree.
  destruct (Nat.ltb_spec i d) as [Hd|Hd].
  2:{ rewrite !(full_exponent_3d_raise _ x2 b n1 d b2 n2 d2 i); auto.
      reflexivity. }
  destruct (Nat.ltb_spec i d2) as [Hd2|Hd2].
  2:{ rewrite !(full_exponent_3d_raise _ x2 b n1 d b2 n2 d2 i); auto.
      reflexivity. }
  destruct b as [|b].
  { rewrite !(full_exponent_3d_raise _ x2 0 n1 d b2 n2 d2 i); auto.
    reflexivity. }
  destruct (full_exponent_3d x1 x2 (S b) n1 d b2 n2 d2 i)
    as (e & -> & Hs & He); auto; try lia.
  destruct (full_exponent_3d x1' x2 (S b) n1 d b2 n2 d2 i)
    as (e' & -> & Hs' & He'); auto; try lia.
  cbn. split; [congruence|].
  intros idx Hin. rewrite Hs in Hin.
  destruct (in_range_3 _ _ _ _ Hin) as (q & j & k & -> & Hq & Hj & Hk).
  rewrite He, He' by assumption. now rewrite Hagree.
Qed.

Lemma forward_on_full_eq (axis : Z) (self : DiffusionKernel)
    (x1 x1' x2 : tensor Z) (b n1 d b2 n2 d2 : nat) :
  shape x1 = [b; n1; d] -> shape x1' = [b; n1; d] ->
  shape x2 = [b2; n2; d2] ->
  (forall j k, (j < n1)%nat -> (k < d)%nat ->
     data x1 [0%nat; j; k] = data x1' [0%nat; j; k]) ->
  same_outcome value_eq (forward_on axis self x1 x2 false false)
                        (forward_on axis self x1' x2 false false).
Proof.
  intros H1 H1' H2 Hagree. unfold forward_on. cbn [bind].
  unfold size, ndim. rewrite H1, H1'.
  destruct (wrap_dim axis (length [b; n1; d])) as [p|]; cbn [bind];
    [|reflexivity].
  apply for_each_eq; [|reflexivity].
  intros i a a' Ha. rewrite !full_factor_exponent.
  destruct (base_tensor self i) as [t|]; cbn [bind]; [|reflexivity].
  destruct (unsqueeze (-1) t) as [t'|]; cbn [bind]; [|reflexivity].
  apply (same_outcome_bind tensor_eq).
  - apply (same_outcome_bind tensor_eq).
    + exact (full_exponent_eq x1 x1' x2 b n1 d b2 n2 d2 i H1 H1' H2 Hagree).
    + intros e e' He. now apply pow_bool_eq.
  - intros f f' Hf. now apply imul_eq.
Qed.

(** C9: for batched inputs [x1] of shape [[b; n1; d]] and [x2] of shape
    [[b2; n2; d2]], the full branch of [forward] reads [x1] only through
    its first batch slice: two calls whose [x1] arguments have the same
    shape and agree on [x1[0]], with the same [x2], lengthscale and
    [cats], have the same outcome (the same entries, or the same
    exception).  This holds for both copies of the class in the
    notebook. *)
Theorem C9_first_batch_slice (self : DiffusionKernel)
    (x1 x1' x2 : tensor Z) (b n1 d b2 n2 d2 : nat) :
  (2 <= b)%nat ->
  shape x1 = [b; n1; d] -> shape x1' = [b; n1; d] ->
  shape x2 = [b2; n2; d2] ->
  (forall j k, (j < n1)%nat -> (k < d)%nat ->
     data x1 [0%nat; j; k] = data x1' [0%nat; j; k]) ->
  same_outcome value_eq (forward self x1 x2 false false)
                        (forward self x1' x2 false false) /\
  same_outcome value_eq (forward_2 self x1 x2 false false)
                        (forward_2 self x1' x2 false false).
Proof.
  intros _ H1 H1' H2 Hagree.
  split; apply (forward_on_full_eq _ self x1 x1' x2 b n1 d b2 n2 d2);
    assumption.
Qed.

Lemma C9_first_batch_slice_witness :
  same_outcome value_eq (forward kernel22 batch_x1 batch_x2 false false)
                        (forward kernel22 batch_x1' batch_x2 false false) /\
  same_outcome value_eq (forward_2 kernel22 batch_x1 batch_x2 false false)
                        (forward_2 kernel22 batch_x1' batch_x2 false false).
Proof.
  apply (C9_first_batch_slice kernel22 batch_x1 batch_x1' batch_x2
           2 1 2 2 1 2).
  - lia.
  - reflexivity.
  - reflexivity.
  - reflexivity.
  - intros j k Hj Hk.
    destruct j as [|j]; [|lia].
    destruct k as [|[|k]]; [reflexivity | reflexivity | lia].
Defined.

(** On that input the two batches differ in their second slice and both
    calls return a tensor. *)
Lemma batch_x1_differs :
  data batch_x1 [1%nat; 0%nat; 0%nat] <> data batch_x1' [1%nat; 0%nat; 0%nat] /\
  (exists t, forward kernel22 batch_x1 batch_x2 false false = Ok (Tensor t)) /\
  (exists t, forward kernel22 batch_x1' batch_x2 false false = Ok (Tensor t)).
Proof.
  split; [cbn; discriminate|].
  split; eexists; reflexivity.
Qed.

(** The full branch on three-dimensional batches in closed form, for a
    lengthscale vector: entry [(q, j, k)] compares point [j] of the first
    slice of [x1] with point [k] of slice [q] of [x2]. *)
Lemma full_factor_3d (self : DiffusionKernel) (x1 x2 : tensor Z)
    (b n1 d1 b2 n2 d2 m : nat) (l : nat -> R) (i : nat) (c : Z) :
  shape x1 = [b; n1; d1] -> shape x2 = [b2; n2; d2] ->
  holds_vector (lengthscale self) m l ->
  (i < d1)%nat -> (i < d2)%nat -> (i < m)%nat -> (1 <= b)%nat ->
  list_index (cats self) i = Ok c ->
  exists t, full_factor self x1 x2 i = Ok t /\ shape t = [b2; n1; n2] /\
    forall q j k, (q < b2)%nat -> (j < n1)%nat -> (k < n2)%nat ->
      data t [q; j; k] =
      sim_spec (l i) c (data x1 [0%nat; j; i]) (data x2 [q; k; i]).
Proof.
  intros H1 H2 Hl Hd1 Hd2 Hm Hb Hc.
  rewrite full_factor_exponent.
  destruct (full_exponent_3d x1 x2 b n1 d1 b2 n2 d2 i H1 H2 Hd1 Hd2 Hb)
    as ([se fe] & -> & Hs & He).
  cbn [shape data] in Hs, He. subst se.
  destruct self as [cs [sl g]]. cbn [cats lengthscale] in *.
  unfold base_tensor. cbn [cats lengthscale].
  destruct Hl as [[Hs Hg] | [Hs Hg]]; cbn [shape data] in Hs, Hg; subst sl;
    unfold select at 1; tstep; rewrite (ltb_true _ _ Hm), Hc; teval;
    (eexists; split; [reflexivity|]; split; [reflexivity|]);
    intros q j k Hq Hj Hk; tread; rewrite (He q j k Hq Hj Hk), (Hg i Hm);
    now apply pow_b2n_ne.
Qed.

(** [res *= f] on three-dimensional tensors of one shape. *)
Lemma imul_3d (v : value) (f : tensor R) (b n1 n2 : nat) :
  shape f = [b; n1; n2] ->
  match v with
  | Float _ => True
  | Tensor u => shape u = [b; n1; n2]
  end ->
  exists t, imul v f = Ok (Tensor t) /\ shape t = [b; n1; n2] /\
    forall q j k, (q < b)%nat -> (j < n1)%nat -> (k < n2)%nat ->
      data t [q; j; k] =
      (match v with Float r => r | Tensor u => data u [q; j; k] end
       * data f [q; j; k])%R.
Proof.
  destruct f as [sf g]; cbn [shape data]; intros -> Hv.
  destruct v as [r | [su h]]; cbn [shape data imul] in *.
  - eexists; split; [reflexivity|]. split; [reflexivity|].
    intros; reflexivity.
  - subst su. teval.
    eexists; split; [reflexivity|]. split; [reflexivity|].
    intros q j k Hq Hj Hk. tread. reflexivity.
Qed.

Lemma forward_full_3d (self : DiffusionKernel) (x1 x2 : tensor Z)
    (b n1 d b2 n2 d2 m : nat) (l : nat -> R) :
  shape x1 = [b; n1; d] -> shape x2 = [b2; n2; d2] ->
  holds_vector (lengthscale self) m l ->
  (1 <= b)%nat -> (1 <= d)%nat ->
  (d <= d2)%nat -> (d <= m)%nat -> (d <= length (cats self))%nat ->
  exists t, forward self x1 x2 false false = Ok (Tensor t) /\
    shape t = [b2; n1; n2] /\
    forall q j k, (q < b2)%nat -> (j < n1)%nat -> (k < n2)%nat ->
      data t [q; j; k] =
      K_spec (cat self) l d (point3 x1 0 j) (point3 x2 q k).
Proof.
  intros H1 H2 Hl Hb Hd Hd2 Hm Hc.
  unfold forward, forward_on. cbn [bind].
  unfold size, ndim. rewrite H1. cbn [length]. eval_wrap. cbn [bind nth].
  assert (Hloop : forall n, (1 <= n <= d)%nat ->
    exists t,
      for_range n (fun i res => f <- full_factor self x1 x2 i ;; imul res f)
                (Float 1) = Ok (Tensor t) /\
      shape t = [b2; n1; n2] /\
      forall q j k, (q < b2)%nat -> (j < n1)%nat -> (k < n2)%nat ->
        data t [q; j; k] =
        K_spec (cat self) l n (point3 x1 0 j) (point3 x2 q k)).
  { induction n as [|n IH]; intros Hn; [lia|].
    rewrite for_range_S.
    destruct (full_factor_3d self x1 x2 b n1 d b2 n2 d2 m l n (cat self n))
      as (f & Hf & Hsf & Hdf); auto; try lia.
    { apply list_index_cat. lia. }
    destruct n as [|n].
    - unfold for_range. cbn [seq for_each bind]. rewrite Hf. cbn [bind].
      destruct (imul_3d (Float 1) f b2 n1 n2 Hsf I) as (t & Ht & Hst & Hdt).
      exists t. split; [exact Ht|]. split; [exact Hst|].
      intros q j k Hq Hj Hk. rewrite (Hdt q j k), (Hdf q j k) by assumption.
      reflexivity.
    - destruct IH as (u & Hu & Hsu & Hdu); [lia|].
      rewrite Hu. cbn [bind]. rewrite Hf. cbn [bind].
      destruct (imul_3d (Tensor u) f b2 n1 n2 Hsf Hsu)
        as (t & Ht & Hst & Hdt).
      exists t. split; [exact Ht|]. split; [exact Hst|].
      intros q j k Hq Hj Hk.
      rewrite (Hdt q j k), (Hdf q j k), (Hdu q j k) by assumption.
      reflexivity. }
  apply Hloop. lia.
Qed.

(** ** The [diag] branch on batched inputs *)

Lemma broadcast_rev_same (r : list nat) : broadcast_rev r r = Ok r.
Proof.
  induction r as [|a r IH]; cbn; [reflexivity|].
  now rewrite broadcast_dim_same, IH.
Qed.

Lemma broadcast_shapes_same (s : list nat) : broadcast_shapes s s = Ok s.
Proof.
  unfold broadcast_shapes. rewrite broadcast_rev_same. cbn.
  now rewrite rev_involutive.
Qed.

Lemma broadcast_index_same (s idx : list nat) :
  in_range s idx -> broadcast_index s idx = idx.
Proof.
  intros H. apply in_range_rev in H. unfold broadcast_index.
  rewrite <- (rev_involutive idx) at 2. f_equal.
  revert H. generalize (rev s) (rev idx). clear s idx.
  induction l as [|a l IH]; intros [|j idx]; cbn; try contradiction;
    [reflexivity|].
  intros [Hj H]. now rewrite (read_in_range a j Hj), (IH idx H).
Qed.

(** [res *= f] for a factor of the shape of [res]. *)
Lemma imul_same (v : value) (f : tensor R) (s : list nat) :
  shape f = s ->
  match v with
  | Float _ => True
  | Tensor u => shape u = s
  end ->
  exists t, imul v f = Ok (Tensor t) /\ shape t = s /\
    forall idx, in_range s idx ->
      data t idx =
      (match v with Float r => r | Tensor u => data u idx end
       * data f idx)%R.
Proof.
  intros Hf Hv. destruct v as [r|u]; cbn [imul].
  - eexists; split; [reflexivity|]. split; [exact Hf|].
    intros; reflexivity.
  - unfold mul_. rewrite Hf, Hv, broadcast_shapes_same. cbn [bind].
    rewrite shape_eqb_refl.
    eexists; split; [reflexivity|]. split; [reflexivity|].
    intros idx Hin. cbn [data]. now rewrite (broadcast_index_same s idx Hin).
Qed.

(** A loop whose factors all have the shape [s] returns their product,
    entry by entry. *)
Lemma loop_product (s : list nat) (factor : nat -> result (tensor R))
    (g : nat -> list nat -> R) (n : nat) :
  (forall i, (i < n)%nat ->
     exists f, factor i = Ok f /\ shape f = s /\
       forall idx, in_range s idx -> data f idx = g i idx) ->
  (1 <= n)%nat ->
  exists t,
    for_range n (fun i res => f <- factor i ;; imul res f) (Float 1)
    = Ok (Tensor t) /\
    shape t = s /\
    forall idx, in_range s idx ->
      data t idx = prod_upto (fun i => g i idx) n.
Proof.
  induction n as [|n IH]; intros Hfac Hn; [lia|].
  rewrite for_range_S.
  destruct (Hfac n) as (f & Hf & Hsf & Hdf); [lia|].
  destruct n as [|n].
  - unfold for_range. cbn [seq for_each bind]. rewrite Hf. cbn [bind].
    destruct (imul_same (Float 1) f s Hsf I) as (t & Ht & Hst & Hdt).
    exists t. split; [exact Ht|]. split; [exact Hst|].
    intros idx Hin. rewrite (Hdt idx Hin), (Hdf idx Hin). reflexivity.
  - destruct IH as (u & Hu & Hsu & Hdu); [intros; apply Hfac; lia | lia |].
    rewrite Hu. cbn [bind]. rewrite Hf. cbn [bind].
    destruct (imul_same (Tensor u) f s Hsf Hsu) as (t & Ht & Hst & Hdt).
    exists t. split; [exact Ht|]. split; [exact Hst|].
    intros idx Hin. rewrite (Hdt idx Hin), (Hdf idx Hin), (Hdu idx Hin).
    reflexivity.
Qed.

(** On batches of shape [[b; n; d]] the factor of the [diag] branch has
    one entry per slice, which compares the first points of the two
    slices. *)
Lemma diag_factor_3d (self : DiffusionKernel) (x1 x2 : tensor Z)
    (b n d m : nat) (l : nat -> R) (i : nat) (c : Z) :
  shape x1 = [b; n; d] -> shape x2 = [b; n; d] ->
  holds_vector (lengthscale self) m l ->
  (i < d)%nat -> (i < m)%nat -> (1 <= n)%nat ->
  list_index (cats self) i = Ok c ->
  exists t, diag_factor self x1 x2 i = Ok t /\
    shape t = removelast (shape (lengthscale self)) ++ [b] /\
    forall idx, in_range (shape t) idx ->
      data t idx =
      sim_spec (l i) c (data x1 [last idx 0%nat; 0%nat; i])
                       (data x2 [last idx 0%nat; 0%nat; i]).
Proof.
  destruct self as [cs [sl g]], x1 as [s1 f1], x2 as [s2 f2].
  cbn [shape cats lengthscale data].
  intros -> -> Hl Hd Hm Hn Hc.
  unfold diag_factor, base_tensor. cbn [cats lengthscale].
  destruct Hl as [[Hs Hg] | [Hs Hg]]; cbn [shape data] in Hs, Hg; subst sl;
    unfold select at 1; tstep; rewrite (ltb_true _ _ Hm), Hc; teval;
    rewrite !(ltb_true _ _ Hd); teval;
    rewrite (ltb_true 0 n) by lia; teval;
    (eexists; split; [reflexivity|]; split; [reflexivity|]);
    cbn [shape removelast app].
  - intros [|q [|? ?]]; cbn [in_range]; try tauto. intros [Hq _].
    tread. cbn [last]. rewrite (Hg i Hm).
    rewrite (read_in_range n 0) by lia. now apply pow_b2n_ne.
  - intros [|z [|q [|? ?]]]; cbn [in_range]; try tauto. intros [Hz [Hq _]].
    tread. cbn [last]. rewrite (Hg i Hm).
    rewrite (read_in_range n 0) by lia. now apply pow_b2n_ne.
Qed.

(** What the [diag] branch returns on batches of shape [[b; n; d]]: one
    value per slice, the kernel of the first point of the slice of [x1]
    and the first point of the slice of [x2]. *)
Lemma forward_diag_3d (self : DiffusionKernel) (x1 x2 : tensor Z)
    (b n d m : nat) (l : nat -> R) :
  shape x1 = [b; n; d] -> shape x2 = [b; n; d] ->
  holds_vector (lengthscale self) m l ->
  (1 <= d)%nat -> (1 <= n)%nat ->
  (d <= m)%nat -> (d <= length (cats self))%nat ->
  exists t, forward self x1 x2 true false = Ok (Tensor t) /\
    shape t = removelast (shape (lengthscale self)) ++ [b] /\
    forall idx, in_range (shape t) idx ->
      data t idx =
      K_spec (cat self) l d (point3 x1 (last idx 0%nat) 0)
                            (point3 x2 (last idx 0%nat) 0).
Proof.
  intros H1 H2 Hl Hd Hn Hm Hc.
  unfold forward, forward_on. cbn [bind].
  unfold size, ndim. rewrite H1. cbn [length]. eval_wrap. cbn [bind nth].
  destruct (loop_product (removelast (shape (lengthscale self)) ++ [b])
              (diag_factor self x1 x2)
              (fun i idx =>
                 sim_spec (l i) (cat self i)
                          (data x1 [last idx 0%nat; 0%nat; i])
                          (data x2 [last idx 0%nat; 0%nat; i])) d)
    as (t & Ht & Hs & Hdt); [|exact Hd|].
  - intros i Hi.
    destruct (diag_factor_3d self x1 x2 b n d m l i (cat self i))
      as (f & Hf & Hsf & Hdf); auto; try lia.
    { apply list_index_cat. lia. }
    exists f. split; [exact Hf|]. split; [exact Hsf|].
    intros idx Hin. apply Hdf. now rewrite Hsf.
  - exists t. split; [exact Ht|]. split; [exact Hs|].
    intros idx Hin. rewrite Hs in Hin. exact (Hdt idx Hin).
Qed.

(** C5: the kernel of a point with itself is 1, for any lengthscale and
    category counts: the entries [(k, k)] of [forward(x, x, diag=False)]
    are 1.  The [diag=True] call on the same batch does not return these
    entries, it raises [IndexError]; on a batch [y] with a leading batch
    dimension, where the [diag] branch does return, all its entries
    are 1. *)
Theorem C5_self_similarity (self : DiffusionKernel) (x y : tensor Z)
    (n b n' d : nat) (l : nat -> R) :
  (1 <= d)%nat -> length (cats self) = d ->
  holds_vector (lengthscale self) d l ->
  shape x = [n; d] ->
  shape y = [b; n'; d] -> (1 <= n')%nat ->
  (exists t, forward self x x false false = Ok (Tensor t) /\
     forall k, (k < n)%nat -> data t [k; k] = 1%R) /\
  forward self x x true false = Raise IndexError /\
  (exists t, forward self y y true false = Ok (Tensor t) /\
     forall idx, in_range (shape t) idx -> data t idx = 1%R).
Proof.
  intros Hd Hc Hl Hx Hy Hn'. split; [|split].
  - destruct (forward_full_2d self x x n n d d d l Hx Hx Hl)
      as (v & Hv & Hres); try lia.
    destruct d as [|d]; [lia|]. destruct Hres as (t & -> & _ & Ht).
    exists t. split; [exact Hv|].
    intros k Hk. rewrite (Ht k k Hk Hk). now apply K_spec_same.
  - exact (forward_diag_2d self x x n d Hx Hx Hd).
  - destruct (forward_diag_3d self y y b n' d d l Hy Hy Hl)
      as (t & Ht & _ & Hdt); try lia.
    exists t. split; [exact Ht|].
    intros idx Hin. rewrite (Hdt idx Hin). now apply K_spec_same.
Qed.

Lemma C5_self_similarity_witness :
  (exists t, forward kernel22 points_abc points_abc false false = Ok (Tensor t) /\
     forall k, (k < 3)%nat -> data t [k; k] = 1%R) /\
  forward kernel22 points_abc points_abc true false = Raise IndexError /\
  (exists t, forward kernel22 batch_x1 batch_x1 true false = Ok (Tensor t) /\
     forall idx, in_range (shape t) idx -> data t idx = 1%R).
Proof.
  apply (C5_self_similarity kernel22 points_abc batch_x1 3 2 1 2 ones).
  - lia.
  - reflexivity.
  - exact kernel22_lengthscale.
  - reflexivity.
  - reflexivity.
  - lia.
Defined.

(** * Further properties of [forward] *)

(** ** Entries of the full matrix *)

(** The full branch on two-dimensional batches, with the result named. *)
Lemma forward_full_2d_entries (self : DiffusionKernel) (x1 x2 : tensor Z)
    (n1 n2 d1 d2 m : nat) (l : nat -> R) :
  shape x1 = [n1; d1] -> shape x2 = [n2; d2] ->
  holds_vector (lengthscale self) m l ->
  (1 <= d1)%nat ->
  (d1 <= d2)%nat -> (d1 <= m)%nat -> (d1 <= length (cats self))%nat ->
  exists t, forward self x1 x2 false false = Ok (Tensor t) /\
    shape t = [n1; n2] /\
    forall j k, (j < n1)%nat -> (k < n2)%nat ->
      data t [j; k] = K_spec (cat self) l d1 (point x1 j) (point x2 k).
Proof.
  intros H1 H2 Hl Hd Hd2 Hm Hc.
  destruct (forward_full_2d self x1 x2 n1 n2 d1 d2 m l H1 H2 Hl Hd2 Hm Hc)
    as (v & Hv & Hres).
  destruct d1 as [|d1]; [lia|]. destruct Hres as (t & -> & Hs & Ht).
  exists t. auto.
Qed.

Section Products.

Open Scope R_scope.

Lemma sim_spec_sym (l : R) (c a b : Z) : sim_spec l c a b = sim_spec l c b a.
Proof. unfold sim_spec. now rewrite Z.eqb_sym. Qed.

Lemma K_spec_sym (c : nat -> Z) (l : nat -> R) (d : nat) (a b : nat -> Z) :
  K_spec c l d a b = K_spec c l d b a.
Proof. apply prod_upto_ext. intros i _. apply sim_spec_sym. Qed.

(** A product with a factor 0 is 0. *)
Lemma prod_upto_zero (f : nat -> R) (d i0 : nat) :
  (i0 < d)%nat -> f i0 = 0 -> prod_upto f d = 0.
Proof.
  induction d as [|d IH]; intros Hi0 H; [lia|]. cbn.
  destruct (Nat.eq_dec i0 d) as [->|Hne].
  - rewrite H. lra.
  - rewrite IH by (auto; lia). lra.
Qed.

Lemma base_zero (c : Z) : (1 <= c)%Z -> base 0 c = 0.
Proof.
  intros Hc. apply IZR_le in Hc. unfold base.
  replace (- 0 * IZR c) with 0 by lra. rewrite exp_0.
  unfold Rdiv. replace (1 - 1) with 0 by lra. lra.
Qed.

Lemma K_spec_hamming (c : nat -> Z) (l : nat -> R) (d : nat)
    (a b : nat -> Z) (l0 : R) (c0 : Z) :
  (forall i, (i < d)%nat -> l i = l0 /\ c i = c0) ->
  K_spec c l d a b = base l0 c0 ^ hamming a b d.
Proof.
  unfold K_spec. induction d as [|d IH]; intros H; cbn; [reflexivity|].
  rewrite IH by (intros; apply H; lia).
  destruct (H d) as [-> ->]; [lia|].
  rewrite sim_spec_indicator, pow_add. reflexivity.
Qed.

Lemma sim_spec_more_different (l : R) (c : Z) (a b a' b' : Z) :
  0 < l -> (2 <= c)%Z ->
  (a <> b -> a' <> b') ->
  sim_spec l c a' b' <= sim_spec l c a b.
Proof.
  intros Hl Hc H. pose proof (base_bounds l c Hl Hc) as Hb.
  unfold sim_spec.
  destruct (Z.eqb_spec a b), (Z.eqb_spec a' b'); try lra.
  exfalso. now apply H.
Qed.

End Products.

(** X1: the matrix of the full branch is symmetric in its two batches:
    entry [(j, k)] of [forward(x1, x2)] is entry [(k, j)] of
    [forward(x2, x1)]. *)
Theorem X1_forward_symmetric (self : DiffusionKernel) (x1 x2 : tensor Z)
    (n1 n2 d m : nat) (l : nat -> R) :
  shape x1 = [n1; d] -> shape x2 = [n2; d] ->
  holds_vector (lengthscale self) m l ->
  (1 <= d)%nat -> (d <= m)%nat -> (d <= length (cats self))%nat ->
  exists t u,
    forward self x1 x2 false false = Ok (Tensor t) /\
    forward self x2 x1 false false = Ok (Tensor u) /\
    shape t = [n1; n2] /\ shape u = [n2; n1] /\
    forall j k, (j < n1)%nat -> (k < n2)%nat ->
      data t [j; k] = data u [k; j].
Proof.
  intros H1 H2 Hl Hd Hm Hc.
  destruct (forward_full_2d_entries self x1 x2 n1 n2 d d m l)
    as (t & Ht & Hst & Hdt); auto.
  destruct (forward_full_2d_entries self x2 x1 n2 n1 d d m l)
    as (u & Hu & Hsu & Hdu); auto.
  exists t, u. repeat split; try assumption.
  intros j k Hj Hk. rewrite (Hdt j k Hj Hk), (Hdu k j Hk Hj).
  apply K_spec_sym.
Qed.

Lemma X1_forward_symmetric_witness :
  exists t u,
    forward kernel22 points_abc points_abc false false = Ok (Tensor t) /\
    forward kernel22 points_abc points_abc false false = Ok (Tensor u) /\
    shape t = [3%nat; 3%nat] /\ shape u = [3%nat; 3%nat] /\
    forall j k, (j < 3)%nat -> (k < 3)%nat ->
      data t [j; k] = data u [k; j].
Proof.
  apply (X1_forward_symmetric kernel22 points_abc points_abc 3 3 2 2 ones).
  - reflexivity.
  - reflexivity.
  - exact kernel22_lengthscale.
  - lia.
  - lia.
  - cbn. lia.
Defined.

(** X3: for positive lengthscales and category counts of at least 2, a
    pair of points that differs wherever another pair differs has the
    smaller (or the same) entry: the kernel never grows when more
    dimensions disagree. *)
Theorem X3_more_differences_smaller (self : DiffusionKernel)
    (x1 x2 : tensor Z) (n1 n2 d m : nat) (l : nat -> R)
    (j k j' k' : nat) :
  shape x1 = [n1; d] -> shape x2 = [n2; d] ->
  holds_vector (lengthscale self) m l ->
  (1 <= d)%nat -> (d <= m)%nat -> (d <= length (cats self))%nat ->
  (forall i, (i < d)%nat -> (0 < l i)%R) ->
  (forall i, (i < d)%nat -> (2 <= cat self i)%Z) ->
  (j < n1)%nat -> (k < n2)%nat -> (j' < n1)%nat -> (k' < n2)%nat ->
  (forall i, (i < d)%nat ->
     data x1 [j; i] <> data x2 [k; i] ->
     data x1 [j'; i] <> data x2 [k'; i]) ->
  exists t,
    forward self x1 x2 false false = Ok (Tensor t) /\
    (data t [j'; k'] <= data t [j; k])%R.
Proof.
  intros H1 H2 Hl Hd Hm Hc Hpos Hcat Hj Hk Hj' Hk' Hdiff.
  destruct (forward_full_2d_entries self x1 x2 n1 n2 d d m l)
    as (t & Ht & _ & Hdt); auto.
  exists t. split; [exact Ht|].
  rewrite !Hdt by assumption.
  apply prod_upto_le. intros i Hi. split.
  - apply sim_spec_bounds; auto.
  - apply sim_spec_more_different; auto. apply Hdiff, Hi.
Qed.

Lemma X3_more_differences_smaller_witness :
  exists t,
    forward kernel22 points_abc points_abc false false = Ok (Tensor t) /\
    (data t [0%nat; 2%nat] <= data t [0%nat; 1%nat])%R.
Proof.
  apply (X3_more_differences_smaller kernel22 points_abc points_abc
           3 3 2 2 ones 0 1 0 2).
  - reflexivity.
  - reflexivity.
  - exact kernel22_lengthscale.
  - lia.
  - lia.
  - cbn. lia.
  - exact ones_pos.
  - exact kernel22_cats.
  - lia.
  - lia.
  - lia.
  - lia.
  - intros i Hi. destruct i as [|[|i]]; cbn; [congruence | discriminate | lia].
Defined.

(** X4: when every dimension has the same lengthscale [l0] and the same
    category count [c0], entry [(j, k)] is [base l0 c0] raised to the
    number of dimensions in which the two points differ. *)
Theorem X4_uniform_hamming (self : DiffusionKernel) (x1 x2 : tensor Z)
    (n1 n2 d m : nat) (l : nat -> R) (l0 : R) (c0 : Z) :
  shape x1 = [n1; d] -> shape x2 = [n2; d] ->
  holds_vector (lengthscale self) m l ->
  (1 <= d)%nat -> (d <= m)%nat -> (d <= length (cats self))%nat ->
  (forall i, (i < d)%nat -> l i = l0 /\ cat self i = c0) ->
  exists t,
    forward self x1 x2 false false = Ok (Tensor t) /\
    forall j k, (j < n1)%nat -> (k < n2)%nat ->
      data t [j; k] = (base l0 c0 ^ hamming (point x1 j) (point x2 k) d)%R.
Proof.
  intros H1 H2 Hl Hd Hm Hc Hun.
  destruct (forward_full_2d_entries self x1 x2 n1 n2 d d m l)
    as (t & Ht & _ & Hdt); auto.
  exists t. split; [exact Ht|].
  intros j k Hj Hk. rewrite (Hdt j k Hj Hk).
  now apply K_spec_hamming.
Qed.

Lemma kernel22_uniform (i : nat) :
  (i < 2)%nat -> ones i = 1%R /\ cat kernel22 i = 2%Z.
Proof.
  intros H. destruct i as [|[|i]]; [split; reflexivity.. | lia].
Qed.

Lemma X4_uniform_hamming_witness :
  exists t,
    forward kernel22 points_abc points_abc false false = Ok (Tensor t) /\
    forall j k, (j < 3)%nat -> (k < 3)%nat ->
      data t [j; k] =
      (base 1 2 ^ hamming (point points_abc j) (point points_abc k) 2)%R.
Proof.
  apply (X4_uniform_hamming kernel22 points_abc points_abc 3 3 2 2 ones).
  - reflexivity.
  - reflexivity.
  - exact kernel22_lengthscale.
  - lia.
  - lia.
  - cbn. lia.
  - exact kernel22_uniform.
Defined.

(** X5: nothing clamps the lengthscale.  With every lengthscale 0 (and
    category counts of at least 1) [base] is 0 and the matrix is the
    exact-match indicator: 1 where the two points agree in every
    dimension, 0 where they differ somewhere. *)
Theorem X5_zero_lengthscale (self : DiffusionKernel) (x1 x2 : tensor Z)
    (n1 n2 d m : nat) (l : nat -> R) :
  shape x1 = [n1; d] -> shape x2 = [n2; d] ->
  holds_vector (lengthscale self) m l ->
  (1 <= d)%nat -> (d <= m)%nat -> (d <= length (cats self))%nat ->
  (forall i, (i < d)%nat -> l i = 0%R) ->
  (forall i, (i < d)%nat -> (1 <= cat self i)%Z) ->
  exists t,
    forward self x1 x2 false false = Ok (Tensor t) /\
    forall j k, (j < n1)%nat -> (k < n2)%nat ->
      ((forall i, (i < d)%nat -> data x1 [j; i] = data x2 [k; i]) ->
       data t [j; k] = 1%R) /\
      (forall i, (i < d)%nat -> data x1 [j; i] <> data x2 [k; i] ->
       data t [j; k] = 0%R).
Proof.
  intros H1 H2 Hl Hd Hm Hc Hz Hcat.
  destruct (forward_full_2d_entries self x1 x2 n1 n2 d d m l)
    as (t & Ht & _ & Hdt); auto.
  exists t. split; [exact Ht|].
  intros j k Hj Hk. rewrite (Hdt j k Hj Hk). split.
  - intros Heq. now apply K_spec_same.
  - intros i Hi Hne. apply (prod_upto_zero _ _ i Hi).
    unfold sim_spec, point.
    destruct (Z.eqb_spec (data x1 [j; i]) (data x2 [k; i]));
      [contradiction|].
    rewrite (Hz i Hi). apply base_zero. auto.
Qed.

Lemma kernel22_zero_lengthscale :
  holds_vector (lengthscale kernel22_zero) 2 zeros.
Proof. left. split; [reflexivity|]. intros i _. reflexivity. Qed.

Lemma zeros_zero (i : nat) : (i < 2)%nat -> zeros i = 0%R.
Proof. intros H. destruct i as [|[|i]]; [reflexivity.. | lia]. Qed.

Lemma kernel22_zero_cats (i : nat) :
  (i < 2)%nat -> (1 <= cat kernel22_zero i)%Z.
Proof. intros H. destruct i as [|[|i]]; cbn; lia. Qed.

Lemma X5_zero_lengthscale_witness :
  exists t,
    forward kernel22_zero points_abc points_abc false false = Ok (Tensor t) /\
    forall j k, (j < 3)%nat -> (k < 3)%nat ->
      ((forall i, (i < 2)%nat ->
          data points_abc [j; i] = data points_abc [k; i]) ->
       data t [j; k] = 1%R) /\
      (forall i, (i < 2)%nat ->
         data points_abc [j; i] <> data points_abc [k; i] ->
       data t [j; k] = 0%R).
Proof.
  apply (X5_zero_lengthscale kernel22_zero points_abc points_abc 3 3 2 2 zeros).
  - reflexivity.
  - reflexivity.
  - exact kernel22_zero_lengthscale.
  - lia.
  - lia.
  - cbn. lia.
  - exact zeros_zero.
  - exact kernel22_zero_cats.
Defined.

(** ** When the full branch returns *)

(** In the full branch on two-dimensional batches, a dimension [i] that
    [x1] does not have raises [IndexError]. *)
Lemma full_factor_2d_raise_x1 (self : DiffusionKernel) (x1 x2 : tensor Z)
    (n1 d1 i : nat) :
  shape x1 = [n1; d1] -> (d1 <= i)%nat ->
  full_factor self x1 x2 i = Raise IndexError.
Proof.
  intros H1 Hi. unfold full_factor.
  destruct (base_tensor self i) as [b|e] eqn:Hb; cbn [bind].
  2:{ now rewrite (base_tensor_raise _ _ _ Hb). }
  destruct (unsqueeze_last_ok b) as [b' ->]. cbn [bind].
  rewrite (select_last x1 [n1] d1 i H1).
  destruct (Nat.ltb_spec i d1); [lia | reflexivity].
Qed.

(** The loop of the full branch raises [IndexError] as soon as it runs
    past the dimensions that [x1], [x2], the lengthscale and [cats] all
    have. *)
Lemma full_loop_2d_raise (self : DiffusionKernel) (x1 x2 : tensor Z)
    (n1 n2 d1 d2 m : nat) (l : nat -> R) (n : nat) :
  shape x1 = [n1; d1] -> shape x2 = [n2; d2] ->
  holds_vector (lengthscale self) m l ->
  (Nat.min d1 (Nat.min m (Nat.min (length (cats self)) d2)) < n)%nat ->
  for_range n (fun i res => f <- full_factor self x1 x2 i ;; imul res f)
            (Float 1) = Raise IndexError.
Proof.
  intros H1 H2 Hl Hn.
  set (n0 := Nat.min d1 (Nat.min m (Nat.min (length (cats self)) d2))) in *.
  replace n with (n0 + S (n - S n0))%nat by lia.
  rewrite for_range_split.
  destruct (full_loop_2d self x1 x2 n1 n2 d1 d2 m l n0 H1 H2 Hl)
    as (v & -> & _); try lia.
  cbn [bind].
  destruct (Nat.lt_ge_cases n0 d1) as [Hlt|Hge].
  - rewrite (full_factor_2d_raise self x1 x2 n1 n2 d1 d2 m l n0 H1 H2 Hl);
      [reflexivity | lia | lia].
  - rewrite (full_factor_2d_raise_x1 self x1 x2 n1 d1 n0 H1 Hge).
    reflexivity.
Qed.

(** X7: on two-dimensional batches the full branch returns exactly when
    the last dimension of [x1] is at most the number of lengthscale
    entries, [len(cats)] and the last dimension of [x2]; otherwise it
    raises [IndexError].  (With the default lengthscale of shape [[1; 1]]
    and two columns this is the [IndexError] recorded in the notebook.) *)
Theorem X7_full_branch_returns_iff (self : DiffusionKernel)
    (x1 x2 : tensor Z) (n1 n2 d1 d2 m : nat) (l : nat -> R) :
  shape x1 = [n1; d1] -> shape x2 = [n2; d2] ->
  holds_vector (lengthscale self) m l ->
  ((d1 <= Nat.min m (Nat.min (length (cats self)) d2))%nat ->
   exists v, forward self x1 x2 false false = Ok v) /\
  ((Nat.min m (Nat.min (length (cats self)) d2) < d1)%nat ->
   forward self x1 x2 false false = Raise IndexError).
Proof.
  intros H1 H2 Hl. split; intros Hd.
  - destruct (forward_full_2d self x1 x2 n1 n2 d1 d2 m l H1 H2 Hl)
      as (v & Hv & _); try lia.
    exists v. exact Hv.
  - unfold forward, forward_on. cbn [bind].
    unfold size, ndim. rewrite H1. cbn [length]. eval_wrap. cbn [bind nth].
    apply (full_loop_2d_raise self x1 x2 n1 n2 d1 d2 m l d1 H1 H2 Hl). lia.
Qed.

Lemma kernel_default_lengthscale :
  holds_vector (lengthscale kernel_default) 1 ones.
Proof.
  right. split; [reflexivity|]. intros i Hi.
  destruct i as [|i]; [reflexivity | lia].
Qed.

Lemma X7_full_branch_returns_iff_witness :
  (exists v, forward kernel22 train_x train_x false false = Ok v) /\
  forward kernel_default train_x train_x false false = Raise IndexError.
Proof.
  split.
  - apply (X7_full_branch_returns_iff kernel22 train_x train_x 2 2 2 2 2 ones).
    + reflexivity.
    + reflexivity.
    + exact kernel22_lengthscale.
    + cbn. lia.
  - apply (X7_full_branch_returns_iff kernel_default train_x train_x
             2 2 2 2 1 ones).
    + reflexivity.
    + reflexivity.
    + exact kernel_default_lengthscale.
    + cbn. lia.
Defined.

(** ** Degenerate inputs *)

(** X8: when the last dimension of [x1] has size 0 the loop does not run
    and [forward] returns the Python float [1.0], not a tensor, in both
    modes and whatever [x2], the lengthscale and [cats] are. *)
Theorem X8_no_dimensions (self : DiffusionKernel) (x1 x2 : tensor Z)
    (s : list nat) (diag : bool) :
  shape x1 = s ++ [0%nat] ->
  forward self x1 x2 diag false = Ok (Float 1).
Proof.
  intros H1. unfold forward, forward_on. cbn [bind].
  unfold size, ndim. rewrite H1, length_app. cbn [length].
  rewrite Nat.add_1_r, wrap_dim_last. cbn [bind]. rewrite nth_middle.
  destruct diag; reflexivity.
Qed.

Lemma X8_no_dimensions_witness :
  forward kernel22 (matrix 0 [[]; []]) points_abc true false = Ok (Float 1).
Proof.
  apply (X8_no_dimensions kernel22 (matrix 0 [[]; []]) points_abc [2%nat]).
  reflexivity.
Defined.

(** X9: a single point given as a one-dimensional tensor cannot be
    evaluated: with [x1] of shape [[d]], [d >= 1], the full branch raises
    [IndexError] for every [x2] ([x1[..., i]] has no dimension for
    [unsqueeze(-2)]), and so does the [diag] branch when [x2] is
    one-dimensional too. *)
Theorem X9_one_dimensional_input (self : DiffusionKernel)
    (x1 x2 y2 : tensor Z) (d d2 : nat) :
  shape x1 = [d] -> (1 <= d)%nat -> shape y2 = [d2] ->
  forward self x1 x2 false false = Raise IndexError /\
  forward self x1 y2 true false = Raise IndexError.
Proof.
  intros H1 Hd H2.
  assert (Hsize : size x1 (-1) = Ok d).
  { unfold size, ndim. rewrite H1. reflexivity. }
  split; unfold forward, forward_on; cbn [bind]; rewrite Hsize; cbn [bind];
    (apply for_range_raise_first; [exact Hd|]).
  - unfold full_factor.
    destruct (base_tensor self 0) as [b|e] eqn:Hb; cbn [bind].
    2:{ now rewrite (base_tensor_raise _ _ _ Hb). }
    destruct (unsqueeze_last_ok b) as [b' ->]. cbn [bind].
    rewrite (select_last x1 [] d 0 H1), (ltb_true 0 d) by lia.
    teval. reflexivity.
  - unfold diag_factor.
    destruct (base_tensor self 0) as [b|e] eqn:Hb; cbn [bind].
    2:{ now rewrite (base_tensor_raise _ _ _ Hb). }
    destruct (unsqueeze_last_ok b) as [b' ->]. cbn [bind].
    rewrite (select_last x1 [] d 0 H1), (ltb_true 0 d) by lia.
    rewrite (select_last y2 [] d2 0 H2).
    destruct (0 <? d2)%nat; cbn [bind]; [|reflexivity].
    teval. reflexivity.
Qed.

Lemma X9_one_dimensional_input_witness :
  forward kernel22 (mkT [2%nat] (fun _ => 0%Z)) points_abc false false
  = Raise IndexError /\
  forward kernel22 (mkT [2%nat] (fun _ => 0%Z)) (mkT [2%nat] (fun _ => 0%Z))
          true false
  = Raise IndexError.
Proof.
  apply (X9_one_dimensional_input kernel22 _ _ _ 2 2).
  - reflexivity.
  - lia.
  - reflexivity.
Defined.

(** ** The mode [last_dim_is_batch] *)

Lemma swap_pair (a b : nat) : swap 1 0 [a; b] = [b; a].
Proof. reflexivity. Qed.

(** [x.transpose(-1, -2).unsqueeze(-1)] on a two-dimensional batch. *)
Lemma last_dim_to_batch (x : tensor Z) (n d : nat) :
  shape x = [n; d] ->
  exists x', (t <- transpose (-1) (-2) x ;; unsqueeze (-1) t) = Ok x' /\
    shape x' = [d; n; 1%nat] /\
    forall q j, data x' [q; j; 0%nat] = data x [j; q].
Proof.
  destruct x as [s f]. cbn [shape data]. intros ->.
  unfold transpose. tstep. rewrite swap_pair. teval.
  eexists; split; [reflexivity|]. split; [reflexivity|].
  intros q j. reflexivity.
Qed.

(** X10: with [last_dim_is_batch=True] on two-dimensional batches the
    full branch returns one [n1] by [n2] matrix per column [q] of [x2];
    its entry [(j, k)] compares column 0 of [x1] with column [q] of [x2],
    and only the first lengthscale and the first category count are
    used. *)
Theorem X10_last_dim_is_batch (self : DiffusionKernel) (x1 x2 : tensor Z)
    (n1 n2 d1 d2 m : nat) (l : nat -> R) :
  shape x1 = [n1; d1] -> shape x2 = [n2; d2] ->
  holds_vector (lengthscale self) m l ->
  (1 <= d1)%nat -> (1 <= m)%nat -> (1 <= length (cats self))%nat ->
  exists t, forward self x1 x2 false true = Ok (Tensor t) /\
    shape t = [d2; n1; n2] /\
    forall q j k, (q < d2)%nat -> (j < n1)%nat -> (k < n2)%nat ->
      data t [q; j; k] =
      (base (l 0%nat) (cat self 0)
       ^ indicator (data x1 [j; 0%nat]) (data x2 [k; q]))%R.
Proof.
  intros H1 H2 Hl Hd Hm Hc.
  destruct (last_dim_to_batch x1 n1 d1 H1) as (x1' & E1 & Hs1 & Hd1).
  destruct (last_dim_to_batch x2 n2 d2 H2) as (x2' & E2 & Hs2 & Hd2).
  unfold forward, forward_on. rewrite E1, E2. cbn [bind].
  change (exists t, forward self x1' x2' false false = Ok (Tensor t) /\
    shape t = [d2; n1; n2] /\
    forall q j k, (q < d2)%nat -> (j < n1)%nat -> (k < n2)%nat ->
      data t [q; j; k] =
      (base (l 0%nat) (cat self 0)
       ^ indicator (data x1 [j; 0%nat]) (data x2 [k; q]))%R).
  destruct (forward_full_3d self x1' x2' d1 n1 1 d2 n2 1 m l Hs1 Hs2 Hl)
    as (t & Ht & Hst & Hdt); try lia.
  exists t. split; [exact Ht|]. split; [exact Hst|].
  intros q j k Hq Hj Hk. rewrite (Hdt q j k Hq Hj Hk).
  unfold K_spec, point3. cbn [prod_upto].
  rewrite Hd1, Hd2, sim_spec_indicator. lra.
Qed.

Lemma X10_last_dim_is_batch_witness :
  exists t, forward kernel22 points_abc points_abc false true = Ok (Tensor t) /\
    shape t = [2%nat; 3%nat; 3%nat] /\
    forall q j k, (q < 2)%nat -> (j < 3)%nat -> (k < 3)%nat ->
      data t [q; j; k] =
      (base (ones 0) (cat kernel22 0)
       ^ indicator (data points_abc [j; 0%nat]) (data points_abc [k; q]))%R.
Proof.
  apply (X10_last_dim_is_batch kernel22 points_abc points_abc 3 3 2 2 2 ones).
  - reflexivity.
  - reflexivity.
  - exact kernel22_lengthscale.
  - lia.
  - lia.
  - cbn. lia.
Defined.

(** ** The second copy of the class *)

(** X11: the second copy bounds its loop by [x1.shape[~1]], the number of
    points of [x1].  On two-dimensional batches it returns the product
    over the first [n1] dimensions when [1 <= n1] and [n1] is at most the
    last dimensions of [x1] and [x2], the number of lengthscale entries
    and [len(cats)]; with more points than that it raises
    [IndexError]. *)
Theorem X11_second_copy_loops_over_points (self : DiffusionKernel)
    (x1 x2 : tensor Z) (n1 n2 d1 d2 m : nat) (l : nat -> R) :
  shape x1 = [n1; d1] -> shape x2 = [n2; d2] ->
  holds_vector (lengthscale self) m l ->
  ((1 <= n1)%nat ->
   (n1 <= Nat.min d1 (Nat.min m (Nat.min (length (cats self)) d2)))%nat ->
   exists t, forward_2 self x1 x2 false false = Ok (Tensor t) /\
     shape t = [n1; n2] /\
     forall j k, (j < n1)%nat -> (k < n2)%nat ->
       data t [j; k] =
       prod_upto (fun i =>
         (base (l i) (cat self i)
          ^ indicator (data x1 [j; i]) (data x2 [k; i]))%R) n1) /\
  ((Nat.min d1 (Nat.min m (Nat.min (length (cats self)) d2)) < n1)%nat ->
   forward_2 self x1 x2 false false = Raise IndexError).
Proof.
  intros H1 H2 Hl.
  assert (Hsize : size x1 (-2) = Ok n1).
  { unfold size, ndim. rewrite H1. reflexivity. }
  split; intros Hn; unfold forward_2, forward_on; cbn [bind];
    rewrite Hsize; cbn [bind].
  - intros Hle.
    destruct (full_loop_2d self x1 x2 n1 n2 d1 d2 m l n1 H1 H2 Hl)
      as (v & Hv & Hres); try lia.
    destruct n1 as [|n1]; [lia|]. destruct Hres as (t & -> & Hs & Ht).
    exists t. split; [exact Hv|]. split; [exact Hs|].
    intros j k Hj Hk. rewrite (Ht j k Hj Hk). apply K_spec_indicator.
  - exact (full_loop_2d_raise self x1 x2 n1 n2 d1 d2 m l n1 H1 H2 Hl Hn).
Qed.

Lemma X11_second_copy_loops_over_points_witness :
  (exists t, forward_2 kernel22 (matrix 2 [[0%Z; 0%Z]]) points_abc false false
             = Ok (Tensor t) /\
     shape t = [1%nat; 3%nat] /\
     forall j k, (j < 1)%nat -> (k < 3)%nat ->
       data t [j; k] =
       prod_upto (fun i =>
         (base (ones i) (cat kernel22 i)
          ^ indicator (data (matrix 2 [[0%Z; 0%Z]]) [j; i])
                      (data points_abc [k; i]))%R) 1) /\
  forward_2 kernel22 points_abc points_abc false false = Raise IndexError.
Proof.
  split.
  - apply (X11_second_copy_loops_over_points kernel22
             (matrix 2 [[0%Z; 0%Z]]) points_abc 1 3 2 2 2 ones).
    + reflexivity.
    + reflexivity.
    + exact kernel22_lengthscale.
    + lia.
    + cbn. lia.
  - apply (X11_second_copy_loops_over_points kernel22
             points_abc points_abc 3 3 2 2 2 ones).
    + reflexivity.
    + reflexivity.
    + exact kernel22_lengthscale.
    + cbn. lia.
Defined.

(** ** Batched inputs *)

(** X12: on batches [x1] of shape [[b; n1; d]] and [x2] of shape
    [[b2; n2; d2]] the full branch returns a tensor of shape
    [[b2; n1; n2]]: one matrix per slice of [x2], whose entry [(j, k)] is
    the kernel of point [j] of the first slice of [x1] and point [k] of
    that slice of [x2]. *)
Theorem X12_full_branch_batched (self : DiffusionKernel) (x1 x2 : tensor Z)
    (b n1 d b2 n2 d2 m : nat) (l : nat -> R) :
  shape x1 = [b; n1; d] -> shape x2 = [b2; n2; d2] ->
  holds_vector (lengthscale self) m l ->
  (1 <= b)%nat -> (1 <= d)%nat ->
  (d <= d2)%nat -> (d <= m)%nat -> (d <= length (cats self))%nat ->
  exists t, forward self x1 x2 false false = Ok (Tensor t) /\
    shape t = [b2; n1; n2] /\
    forall q j k, (q < b2)%nat -> (j < n1)%nat -> (k < n2)%nat ->
      data t [q; j; k] =
      prod_upto (fun i =>
        (base (l i) (cat self i)
         ^ indicator (data x1 [0%nat; j; i]) (data x2 [q; k; i]))%R) d.
Proof.
  intros H1 H2 Hl Hb Hd Hd2 Hm Hc.
  destruct (forward_full_3d self x1 x2 b n1 d b2 n2 d2 m l)
    as (t & Ht & Hs & Hdt); auto.
  exists t. split; [exact Ht|]. split; [exact Hs|].
  intros q j k Hq Hj Hk. rewrite (Hdt q j k Hq Hj Hk).
  apply K_spec_indicator.
Qed.

Lemma X12_full_branch_batched_witness :
  exists t, forward kernel22 batch_x1 batch_x2 false false = Ok (Tensor t) /\
    shape t = [2%nat; 1%nat; 1%nat] /\
    forall q j k, (q < 2)%nat -> (j < 1)%nat -> (k < 1)%nat ->
      data t [q; j; k] =
      prod_upto (fun i =>
        (base (ones i) (cat kernel22 i)
         ^ indicator (data batch_x1 [0%nat; j; i])
                     (data batch_x2 [q; k; i]))%R) 2.
Proof.
  apply (X12_full_branch_batched kernel22 batch_x1 batch_x2 2 1 2 2 1 2 2 ones).
  - reflexivity.
  - reflexivity.
  - exact kernel22_lengthscale.
  - lia.
  - lia.
  - lia.
  - lia.
  - cbn. lia.
Defined.

(** X13: on two batches of shape [[b; n; d]] with [n >= 1] the [diag]
    branch returns one value per slice (shape [[b]] for a lengthscale of
    shape [[m]], [[1; b]] for [[1; m]]): the kernel of the first point of
    the slice of [x1] and the first point of the slice of [x2].  The
    other points of a slice are not read. *)
Theorem X13_diag_branch_batched (self : DiffusionKernel) (x1 x2 : tensor Z)
    (b n d m : nat) (l : nat -> R) :
  shape x1 = [b; n; d] -> shape x2 = [b; n; d] ->
  holds_vector (lengthscale self) m l ->
  (1 <= d)%nat -> (1 <= n)%nat ->
  (d <= m)%nat -> (d <= length (cats self))%nat ->
  exists t, forward self x1 x2 true false = Ok (Tensor t) /\
    shape t = removelast (shape (lengthscale self)) ++ [b] /\
    forall idx, in_range (shape t) idx ->
      data t idx =
      prod_upto (fun i =>
        (base (l i) (cat self i)
         ^ indicator (data x1 [last idx 0%nat; 0%nat; i])
                     (data x2 [last idx 0%nat; 0%nat; i]))%R) d.
Proof.
  intros H1 H2 Hl Hd Hn Hm Hc.
  destruct (forward_diag_3d self x1 x2 b n d m l)
    as (t & Ht & Hs & Hdt); auto.
  exists t. split; [exact Ht|]. split; [exact Hs|].
  intros idx Hin. rewrite (Hdt idx Hin). apply K_spec_indicator.
Qed.

Lemma X13_diag_branch_batched_witness :
  exists t, forward kernel22 batch_x1 batch_x2 true false = Ok (Tensor t) /\
    shape t = removelast (shape (lengthscale kernel22)) ++ [2%nat] /\
    forall idx, in_range (shape t) idx ->
      data t idx =
      prod_upto (fun i =>
        (base (ones i) (cat kernel22 i)
         ^ indicator (data batch_x1 [last idx 0%nat; 0%nat; i])
                     (data batch_x2 [last idx 0%nat; 0%nat; i]))%R) 2.
Proof.
  apply (X13_diag_branch_batched kernel22 batch_x1 batch_x2 2 1 2 2 ones).
  - reflexivity.
  - reflexivity.
  - exact kernel22_lengthscale.
  - lia.
  - lia.
  - lia.
  - cbn. lia.
Defined.

(** ** The [diag] branch on two-dimensional batches *)

(** X15: the [diag] branch never returns on two-dimensional batches with
    at least one column, whatever the numbers of points, the lengthscale
    and [cats] are: the comparison [x1[..., i] != x2[..., i]] has at most
    one dimension there, and [[:, 0, ...]] needs two. *)
Theorem X15_diag_never_returns_2d (self : DiffusionKernel)
    (x1 x2 : tensor Z) (n1 n2 d1 d2 : nat) :
  shape x1 = [n1; d1] -> shape x2 = [n2; d2] -> (1 <= d1)%nat ->
  exists e, forward self x1 x2 true false = Raise e /\
            (e = IndexError \/ e = RuntimeError).
Proof.
  intros H1 H2 Hd.
  assert (Hsize : size x1 (-1) = Ok d1).
  { unfold size, ndim. rewrite H1. reflexivity. }
  assert (Hf : exists e, diag_factor self x1 x2 0 = Raise e /\
                         (e = IndexError \/ e = RuntimeError)).
  { unfold diag_factor.
    destruct (base_tensor self 0) as [b|e] eqn:Hb; cbn [bind].
    2:{ exists e. split; [reflexivity|]. left.
        exact (base_tensor_raise _ _ _ Hb). }
    destruct (unsqueeze_last_ok b) as [b' ->]. cbn [bind].
    rewrite (select_last x1 [n1] d1 0 H1), (ltb_true 0 d1) by lia.
    rewrite (select_last x2 [n2] d2 0 H2).
    destruct (0 <? d2)%nat; cbn [bind]; [|eauto].
    unfold ne, zip_with, broadcast_shapes. cbn [shape rev app broadcast_rev].
    unfold broadcast_dim.
    destruct (n1 =? n2)%nat; [teval; eauto|].
    destruct (n1 =? 1)%nat; [teval; eauto|].
    destruct (n2 =? 1)%nat; [teval; eauto|].
    cbn [bind]. eauto. }
  destruct Hf as (e & He & Hkind).
  exists e. split; [|exact Hkind].
  unfold forward, forward_on. cbn [bind]. rewrite Hsize. cbn [bind].
  apply for_range_raise_first; [exact Hd|]. now rewrite He.
Qed.

Lemma X15_diag_never_returns_2d_witness :
  exists e, forward kernel22 (matrix 2 [[0%Z; 0%Z]]) points_abc true false
            = Raise e /\
            (e = IndexError \/ e = RuntimeError).
Proof.
  apply (X15_diag_never_returns_2d kernel22 (matrix 2 [[0%Z; 0%Z]])
           points_abc 1 3 2 2).
  - reflexivity.
  - reflexivity.
  - lia.
Defined.

(** X16: with [last_dim_is_batch=True] the [diag] branch does return on
    two-dimensional batches of equal shape: one value per column [q],
    which compares the entries of the first points of [x1] and [x2] in
    that column, with the first lengthscale and the first category
    count. *)
Theorem X16_last_dim_is_batch_diag (self : DiffusionKernel)
    (x1 x2 : tensor Z) (n d m : nat) (l : nat -> R) :
  shape x1 = [n; d] -> shape x2 = [n; d] ->
  holds_vector (lengthscale self) m l ->
  (1 <= n)%nat -> (1 <= m)%nat -> (1 <= length (cats self))%nat ->
  exists t, forward self x1 x2 true true = Ok (Tensor t) /\
    shape t = removelast (shape (lengthscale self)) ++ [d] /\
    forall idx, in_range (shape t) idx ->
      data t idx =
      (base (l 0%nat) (cat self 0)
       ^ indicator (data x1 [0%nat; last idx 0%nat])
                   (data x2 [0%nat; last idx 0%nat]))%R.
Proof.
  intros H1 H2 Hl Hn Hm Hc.
  destruct (last_dim_to_batch x1 n d H1) as (x1' & E1 & Hs1 & Hd1).
  destruct (last_dim_to_batch x2 n d H2) as (x2' & E2 & Hs2 & Hd2).
  unfold forward, forward_on. rewrite E1, E2. cbn [bind].
  change (exists t, forward self x1' x2' true false = Ok (Tensor t) /\
    shape t = removelast (shape (lengthscale self)) ++ [d] /\
    forall idx, in_range (shape t) idx ->
      data t idx =
      (base (l 0%nat) (cat self 0)
       ^ indicator (data x1 [0%nat; last idx 0%nat])
                   (data x2 [0%nat; last idx 0%nat]))%R).
  destruct (forward_diag_3d self x1' x2' d n 1 m l Hs1 Hs2 Hl)
    as (t & Ht & Hst & Hdt); try lia.
  exists t. split; [exact Ht|]. split; [exact Hst|].
  intros idx Hin. rewrite (Hdt idx Hin).
  unfold K_spec, point3. cbn [prod_upto].
  rewrite Hd1, Hd2, sim_spec_indicator. lra.
Qed.

Lemma X16_last_dim_is_batch_diag_witness :
  exists t, forward kernel22 points_abc points_abc true true = Ok (Tensor t) /\
    shape t = removelast (shape (lengthscale kernel22)) ++ [2%nat] /\
    forall idx, in_range (shape t) idx ->
      data t idx =
      (base (ones 0) (cat kernel22 0)
       ^ indicator (data points_abc [0%nat; last idx 0%nat])
                   (data points_abc [0%nat; last idx 0%nat]))%R.
Proof.
  apply (X16_last_dim_is_batch_diag kernel22 points_abc points_abc 3 2 2 ones).
  - reflexivity.
  - reflexivity.
  - exact kernel22_lengthscale.
  - lia.
  - lia.
  - cbn. lia.
Defined.
